(** * Startup configuration and locale resolution of the desktop bootstrap

    A shallow embedding of the bootstrap script of the application: the
    JSONC comment stripper, the flags store, the locale resolver, the cache
    directory manager and the startup sequencer, together with the
    properties the design document states about them.

    Promises are modelled by their settlement: calling an async function
    runs it to its end and yields the value it resolves with or the error
    it rejects with.  The eager part of the script therefore runs before
    the ready handler in the trace, whatever the interleaving of the
    independent reads at run time.

    Texts are Rocq strings, read as sequences of 8-bit code units.  The two
    Unicode line terminators U+2028 and U+2029, which the regular
    expression atom [.] also refuses, lie outside this alphabet. *)

From Stdlib Require Import Ascii String List Bool Arith ZArith Lia DecimalString.
From stdpp Require Import base option gmap strings.

Import ListNotations.

Set Warnings "-register-all".

(** ** Characters *)

Module Chars.
Definition LF : ascii := "010"%char.
Definition CR : ascii := "013"%char.
Definition dquote : ascii := "034"%char.
Definition squote : ascii := "039"%char.
Definition backslash : ascii := "092"%char.
Definition slash : ascii := "047"%char.
Definition star : ascii := "042"%char.
End Chars.
Import Chars.

Definition str1 (c : ascii) : string := String c EmptyString.

(** ** A backtracking matcher for the regular expressions of the source

    The matcher follows the ECMAScript pattern semantics: alternatives are
    tried left to right, a greedy quantifier tries one more iteration first,
    a lazy one tries the continuation first, and an iteration of a starred
    atom that consumes nothing is refused. *)

Module Regex.

Inductive greed := Greedy | Lazy.

Inductive regex : Type :=
| Eps                                  (* the empty pattern *)
| Set_ (p : ascii -> bool)             (* one character of a class *)
| Eos                                  (* [$] without the m flag *)
| Seq (r1 r2 : regex)
| Alt (r1 r2 : regex)
| Star (g : greed) (r : regex).        (* [r*] and [r*?] *)

(** Character classes. *)
Definition chr (c : ascii) : regex := Set_ (Ascii.eqb c).
Definition none_of (l : list ascii) : regex :=
  Set_ (fun c => negb (existsb (Ascii.eqb c) l)).
(** [.] matches everything except line terminators. *)
Definition is_line_terminator (c : ascii) : bool :=
  Ascii.eqb c LF || Ascii.eqb c CR.
Definition dot : regex := Set_ (fun c => negb (is_line_terminator c)).

(** Derived quantifiers: [r?] and [r{2,}], both greedy. *)
Definition opt (r : regex) : regex := Alt r Eps.
Definition at_least_2 (r : regex) : regex := Seq r (Seq r (Star Greedy r)).

Fixpoint seqs (l : list regex) : regex :=
  match l with
  | [] => Eps
  | [r] => r
  | r :: l' => Seq r (seqs l')
  end.

Definition cont := string -> option string.

(** The rounds of a starred atom whose matcher is [mr]: a greedy star
    tries one more round first, a lazy one tries the continuation first.
    A round has to consume something; [fuel] bounds the number of rounds
    and the length of the text is always enough. *)
Fixpoint star_loop (mr : string -> cont -> option string) (g : greed)
    (k : cont) (fuel : nat) (s : string) {struct fuel} : option string :=
  match fuel with
  | O => k s
  | S fuel' =>
      let again (_ : unit) :=
        mr s (fun s' =>
          if String.length s' <? String.length s
          then star_loop mr g k fuel' s' else None) in
      match g with
      | Greedy =>
          match again tt with
          | Some x => Some x
          | None => k s
          end
      | Lazy =>
          match k s with
          | Some x => Some x
          | None => again tt
          end
      end
  end.

(** [m r s k]: match [r] at the front of [s], then hand the remaining text
    to the continuation [k]; the answer is that of the first successful
    path in backtracking order. *)
Fixpoint m (r : regex) (s : string) (k : cont) {struct r} : option string :=
  match r with
  | Eps => k s
  | Set_ p =>
      match s with
      | String c s' => if p c then k s' else None
      | EmptyString => None
      end
  | Eos => match s with EmptyString => k s | String _ _ => None end
  | Seq r1 r2 => m r1 s (fun s' => m r2 s' k)
  | Alt r1 r2 =>
      match m r1 s k with
      | Some x => Some x
      | None => m r2 s k
      end
  | Star g r1 => star_loop (m r1) g k (String.length s) s
  end.

(** The text consumed when [s] was matched down to its suffix [rest]. *)
Definition consumed (s rest : string) : string :=
  substring 0 (String.length s - String.length rest) s.

(** One [exec] at the front of [s] for a pattern that is an alternation of
    capture groups: the index of the group that matched, the matched text
    and the remaining text. *)
Fixpoint exec_groups (i : nat) (groups : list regex) (s : string)
  : option (nat * string * string) :=
  match groups with
  | [] => None
  | r :: groups' =>
      match m r s Some with
      | Some rest => Some (i, consumed s rest, rest)
      | None => exec_groups (S i) groups' s
      end
  end.

(** [String.prototype.replace] with a global pattern and a replacer
    function: scan from the left; at a match emit the replacement and
    continue behind it, otherwise copy one character.  An empty match
    advances by one character. *)
Fixpoint replace_from (fuel : nat) (groups : list regex)
    (replacer : nat -> string -> string) (s : string) : string :=
  match fuel with
  | O => s
  | S fuel' =>
      match exec_groups 1 groups s with
      | Some (i, matched, rest) =>
          replacer i matched +:+
            (if String.length rest <? String.length s
             then replace_from fuel' groups replacer rest
             else match s with
                  | EmptyString => EmptyString
                  | String c s' =>
                      String c (replace_from fuel' groups replacer s')
                  end)
      | None =>
          match s with
          | EmptyString => EmptyString
          | String c s' => String c (replace_from fuel' groups replacer s')
          end
      end
  end.

Definition replace (groups : list regex) (replacer : nat -> string -> string)
    (s : string) : string :=
  replace_from (S (String.length s)) groups replacer s.

End Regex.
Import Regex.

(** ** The comment stripper *)

(** Groups 1 and 2, a quoted string: the quote [q], then any number of
    rounds of (characters other than backslash and [q], then optionally a
    backslash and one [.] character), then [q] again. *)
Definition quoted (q : ascii) : regex :=
  seqs [ chr q;
         Star Greedy (Seq (Star Greedy (none_of [backslash; q]))
                          (opt (Seq (chr backslash) dot)));
         chr q ].

(** An optional carriage return and a line feed. *)
Definition newline : regex := Seq (opt (chr CR)) (chr LF).

(** Group 3, a block comment: slash, star, lazily any number of newlines
    or [.] characters, star, slash. *)
Definition block_comment : regex :=
  seqs [ chr slash; chr star;
         Star Lazy (Alt newline dot);
         chr star; chr slash ].

(** Group 4, a line comment: two or more slashes, lazily any number of
    [.] characters, then a newline or the end of the input. *)
Definition line_comment : regex :=
  seqs [ at_least_2 (chr slash); Star Lazy dot; Alt newline Eos ].

(** The four capture groups of [regexp], in order. *)
Definition regexp : list regex :=
  [ quoted dquote; quoted squote; block_comment; line_comment ].

Definition char_at (i : nat) (s : string) : option ascii := String.get i s.

(** The replacer function.  Exactly one of the groups m1..m4 took part in
    the match; [group] is its number and [match_] the matched text, which
    is then also the text of that group. *)
Definition replacer (group : nat) (match_ : string) : string :=
  if (group =? 3) && negb (String.eqb match_ "") then
    (* A block comment. Replace with nothing *)
    ""
  else if (group =? 4) && negb (String.eqb match_ "") then
    (* A line comment. If it ends in a newline then keep it. *)
    let length_1 := String.length match_ in
    if (2 <? length_1) &&
       bool_decide (char_at (length_1 - 1) match_ = Some LF)
    then
      if bool_decide (char_at (length_1 - 2) match_ = Some CR)
      then String CR (str1 LF) else str1 LF
    else ""
  else
    (* We match a string *)
    match_.

Definition stripComments (content : string) : string :=
  replace regexp replacer content.


(** ** JavaScript values of the script *)

(** JSON values, as [JSON.parse] delivers them.  A number keeps its literal
    text; an object keeps its properties in enumeration order, one entry per
    key. *)
Inductive json : Type :=
| JNull
| JBool (b : bool)
| JNum (literal : string)
| JStr (s : string)
| JArr (items : list json)
| JObj (props : list (string * json)).

(** A plain object: its own properties, in insertion order. *)
Definition object := list (string * json).

Fixpoint get_prop (key : string) (o : object) : option json :=
  match o with
  | [] => None
  | (k, v) :: o' => if String.eqb k key then Some v else get_prop key o'
  end.

(** [o[key] = v]: an existing property keeps its place. *)
Fixpoint set_prop (key : string) (v : json) (o : object) : object :=
  match o with
  | [] => [(key, v)]
  | (k, v0) :: o' =>
      if String.eqb k key then (k, v) :: o' else (k, v0) :: set_prop key v o'
  end.

(** A value of the parsed command line: a string, a boolean, or the list
    that a repeated option becomes. *)
Inductive argval : Type :=
| AString (s : string)
| ABool (b : bool)
| AList (l : list string).

(** Truthiness of a possibly undefined value. *)
Definition truthy_str (v : option string) : bool :=
  match v with
  | Some s => negb (String.eqb s "")
  | None => false
  end.

Definition truthy_arg (v : option argval) : bool :=
  match v with
  | None => false
  | Some (AString s) => negb (String.eqb s "")
  | Some (ABool b) => b
  | Some (AList _) => true
  end.

(** [String(v)], as template literals, [join] and [RegExp.exec] coerce. *)
Definition arg_to_string (v : option argval) : string :=
  match v with
  | None => "undefined"
  | Some (AString s) => s
  | Some (ABool true) => "true"
  | Some (ABool false) => "false"
  | Some (AList l) => String.concat "," l
  end.

(** [toLowerCase] on 8-bit code units: A-Z, and the capital letters of the
    Latin-1 block U+00C0..U+00DE without the multiplication sign. *)
Definition lower_char (c : ascii) : ascii :=
  let n := nat_of_ascii c in
  if ((65 <=? n) && (n <=? 90)) ||
     ((192 <=? n) && (n <=? 222) && negb (n =? 215))
  then ascii_of_nat (n + 32) else c.

Fixpoint toLowerCase (s : string) : string :=
  match s with
  | EmptyString => EmptyString
  | String c s' => String (lower_char c) (toLowerCase s')
  end.

(** Errors that can be thrown or that reject a promise. *)
Inductive js_error : Type :=
| SystemError (code : string)   (* a failed file-system call, with its code *)
| SyntaxError                   (* JSON.parse *)
| TypeError
| Rejected (reason : string).   (* a collaborator's promise was rejected *)

Definition error_code (e : js_error) : option string :=
  match e with
  | SystemError code => Some code
  | _ => None
  end.

(** The result of a call that may throw; also a settled promise. *)
Inductive outcome (A : Type) : Type :=
| Ok (a : A)
| Throw (e : js_error).
Arguments Ok {A} a.
Arguments Throw {A} e.

(** ** The process and its collaborators *)

(** A file-system entry: a readable file, or something that exists and whose
    read fails with a code other than ENOENT. *)
Inductive read_fault := EACCES | EISDIR | EIO.

Definition fault_code (f : read_fault) : string :=
  match f with
  | EACCES => "EACCES"
  | EISDIR => "EISDIR"
  | EIO => "EIO"
  end.

Inductive node : Type :=
| File (content : string)
| Unreadable (f : read_fault).

Inductive log_line : Type :=
| LogError (e : js_error)       (* console.error(error) *)
| LogWarn (e : js_error).       (* console.warn(`Unable to read ... (${error})`) *)

(** Calls into the platform and the collaborators, in program order. *)
Inductive event : Type :=
| EvReadFile (path : string)
| EvWriteFile (path : string)
| EvMkdirp (dir : option string)
| EvGetLocale
| EvGetNLS (locale : string)
| EvDisableHardwareAcceleration
| EvAppendArgument (flag : string)
| EvAppendSwitch (flag : string) (value : json)
| EvStartRecording (categoryFilter traceOptions : argval)
| EvLoadBundle (entry : string).

(** What the script finds: the platform's functions, the inputs of this run
    and the answers of the collaborators that are not part of the script.
    The language pack module and the bootstrap helpers are not among the
    sources at hand; they are parameters here.  The provider's promise
    resolves with a configuration or with undefined, or it is rejected;
    mkdirp succeeds or fails with an error. *)
Record World : Type := {
  (* Node and ECMAScript *)
  path_join : list string -> string;
  JSON_parse : string -> option json;           (* None: SyntaxError *)
  JSON_stringify : json -> string;
  process_argv : list string;
  fs_write_fault : string -> option js_error;   (* writeFileSync fails so *)
  (* minimist(process.argv), product.json, the module globals *)
  args : gmap string argval;
  product_commit : option string;
  userDataPath : string;
  metaDataFile : string;
  (* electron's app, after ready *)
  app_getLocale : string;
  (* ./vs/base/node/languagePacks and ./bootstrap *)
  lp_getNLSConfiguration :
    option string -> string -> string -> string -> outcome (option object);
  bootstrap_mkdirp : option string -> option js_error
}.

(** What the script changes. *)
Record State : Type := {
  files : gmap string node;
  env : gmap string string;                                  (* process.env *)
  nlsConfigurationPromise : option (outcome (option object));
  console : list log_line;
  trace : list event
}.

Definition set_files (f : gmap string node) (st : State) : State :=
  {| files := f; env := env st;
     nlsConfigurationPromise := nlsConfigurationPromise st;
     console := console st; trace := trace st |}.
Definition set_env (e : gmap string string) (st : State) : State :=
  {| files := files st; env := e;
     nlsConfigurationPromise := nlsConfigurationPromise st;
     console := console st; trace := trace st |}.
Definition set_nlsConfigurationPromise
    (p : option (outcome (option object))) (st : State) : State :=
  {| files := files st; env := env st; nlsConfigurationPromise := p;
     console := console st; trace := trace st |}.
Definition log (l : log_line) (st : State) : State :=
  {| files := files st; env := env st;
     nlsConfigurationPromise := nlsConfigurationPromise st;
     console := console st ++ [l]; trace := trace st |}.
Definition emit (e : event) (st : State) : State :=
  {| files := files st; env := env st;
     nlsConfigurationPromise := nlsConfigurationPromise st;
     console := console st; trace := trace st ++ [e] |}.

(** ** A state and exception monad for the script's control flow *)

Definition M (A : Type) : Type := State -> outcome A * State.

Definition ret {A} (a : A) : M A := fun st => (Ok a, st).
Definition throw {A} (e : js_error) : M A := fun st => (Throw e, st).
Definition bind {A B} (c : M A) (f : A -> M B) : M B :=
  fun st =>
    match c st with
    | (Ok a, st') => f a st'
    | (Throw e, st') => (Throw e, st')
    end.
(** [try { body } catch (error) { handler }] *)
Definition try_catch {A} (body : M A) (handler : js_error -> M A) : M A :=
  fun st =>
    match body st with
    | (Ok a, st') => (Ok a, st')
    | (Throw e, st') => handler e st'
    end.
(** Calling an async function: the promise it returns, settled. *)
Definition promise_of {A} (c : M A) : M (outcome A) :=
  fun st => let '(r, st') := c st in (Ok r, st').
(** [await p] *)
Definition await {A} (p : outcome A) : M A := fun st => (p, st).
Definition get_state : M State := fun st => (Ok st, st).
Definition modify (f : State -> State) : M unit := fun st => (Ok tt, f st).

Declare Scope js_scope.
Delimit Scope js_scope with js.
Notation "x <- c ;; k" := (bind c (fun x => k))
  (at level 100, c at next level, right associativity) : js_scope.
Notation "c ;;; k" := (bind c (fun _ => k))
  (at level 100, right associativity) : js_scope.
Local Open Scope js_scope.

(** How often the main bundle was loaded. *)
Definition is_load (e : event) : bool :=
  match e with EvLoadBundle _ => true | _ => false end.
Definition bundle_loads (st : State) : nat :=
  List.length (List.filter is_load (trace st)).

(** ** The script *)

Definition tab : string := str1 "009"%char.
Definition nl : string := str1 LF.
Definition dq : string := str1 dquote.

(** The template written to a missing flags.json. *)
Definition defaultFlagsConfigRaw : string :=
  String.concat nl
    [ "// Allows to pass flags to Chromium's command line.";
      "//";
      "// If you see rendering issues in VSCode and have a better experience";
      "// with software rendering, you can configure this by adding:";
      "//";
      "// 'disable-gpu': true";
      "//";
      "// NOTE: Changing this file requires a restart of VSCode.";
      "//";
      "// PLEASE DO NOT CHANGE WITHOUT UNDERSTANDING THE IMPACT";
      "{";
      tab +:+ "// Enabled by default by VSCode to resolve color issues in the renderer";
      tab +:+ "// See https://github.com/Microsoft/vscode/issues/51791 for details";
      tab +:+ dq +:+ "disable-color-correct-rendering" +:+ dq +:+ ": true";
      "}" ].

(** The default config. *)
Definition defaultFlagsConfig : json :=
  JObj [("disable-color-correct-rendering", JBool true)].

(** [/max_old_space_size=(\d+)/] *)
Definition is_digit (c : ascii) : bool :=
  let n := nat_of_ascii c in (48 <=? n) && (n <=? 57).
Definition lit (s : string) : regex :=
  seqs (List.map chr (list_ascii_of_string s)).
Definition old_space_size : regex :=
  Seq (lit "max_old_space_size=")
      (Seq (Set_ is_digit) (Star Greedy (Set_ is_digit))).

(** [re.exec(s)] of an unanchored pattern is not null. *)
Fixpoint found (r : regex) (s : string) : bool :=
  match m r s Some with
  | Some _ => true
  | None =>
      match s with
      | EmptyString => false
      | String _ s' => found r s'
      end
  end.

(** [Array.prototype.indexOf] on process.argv; -1 when absent. *)
Fixpoint indexOf (l : list string) (x : string) : Z :=
  match l with
  | [] => (-1)%Z
  | y :: l' =>
      if String.eqb y x then 0%Z
      else let i := indexOf l' x in
           if (i <? 0)%Z then (-1)%Z else (i + 1)%Z
  end.

Definition index_key (i : nat) : string :=
  DecimalString.NilEmpty.string_of_uint (Nat.to_uint i).

(** The entries [Object.keys(v)] walks through; [null] has none to give. *)
Definition own_entries (v : json) : outcome (list (string * json)) :=
  match v with
  | JNull => Throw TypeError
  | JObj props => Ok props
  | JArr items => Ok (imap (fun i x => (index_key i, x)) items)
  | JStr s =>
      Ok (imap (fun i c => (index_key i, JStr (str1 c)))
               (list_ascii_of_string s))
  | JBool _ | JNum _ => Ok []
  end.

Section Script.

Context (w : World).

(** *** File system and console *)

(** [fs.readFileSync(path).toString()] *)
Definition fs_readFileSync (path : string) : M string :=
  fun st =>
    let st := emit (EvReadFile path) st in
    match files st !! path with
    | Some (File content) => (Ok content, st)
    | Some (Unreadable f) => (Throw (SystemError (fault_code f)), st)
    | None => (Throw (SystemError "ENOENT"), st)
    end.

(** [bootstrap.readFile(path)]: the same read behind a promise. *)
Definition bootstrap_readFile (path : string) : M string :=
  fs_readFileSync path.

Definition fs_writeFileSync (path data : string) : M unit :=
  fun st =>
    let st := emit (EvWriteFile path) st in
    match fs_write_fault w path with
    | Some e => (Throw e, st)
    | None => (Ok tt, set_files (<[path := File data]> (files st)) st)
    end.

Definition console_error (e : js_error) : M unit := modify (log (LogError e)).
Definition console_warn (e : js_error) : M unit := modify (log (LogWarn e)).

Definition parse (text : string) : M json :=
  match JSON_parse w text with
  | Some v => ret v
  | None => throw SyntaxError
  end.

(** *** getJSFlags *)

Definition getJSFlags (cliArgs : gmap string argval) : option string :=
  let jsFlags : list (option argval) := [] in
  (* Add any existing JS flags we already got from the command line *)
  let jsFlags :=
    if truthy_arg (cliArgs !! "js-flags")
    then jsFlags ++ [cliArgs !! "js-flags"] else jsFlags in
  (* Support max-memory flag *)
  let jsFlags :=
    if truthy_arg (cliArgs !! "max-memory") &&
       negb (found old_space_size (arg_to_string (cliArgs !! "js-flags")))
    then jsFlags ++
         [Some (AString ("--max_old_space_size=" +:+
                         arg_to_string (cliArgs !! "max-memory")))]
    else jsFlags in
  if 0 <? List.length jsFlags
  then Some (String.concat " " (List.map arg_to_string jsFlags))
  else None.

(** *** configureCommandlineSwitches *)

(** [value === true || value === 'true'] *)
Definition is_true_or_true_string (value : json) : bool :=
  match value with
  | JBool b => b
  | JStr s => String.eqb s "true"
  | _ => false
  end.

Definition append_flag (entry : string * json) : M unit :=
  let '(flag, value) := entry in
  if is_true_or_true_string value then
    (if String.eqb flag "disable-gpu"
     then modify (emit EvDisableHardwareAcceleration)
     else ret tt) ;;;
    modify (emit (EvAppendArgument flag))
  else modify (emit (EvAppendSwitch flag value)).

Fixpoint forEach {A} (f : A -> M unit) (l : list A) : M unit :=
  match l with
  | [] => ret tt
  | x :: l' => f x ;;; forEach f l'
  end.

Definition flagsConfigPath : string :=
  path_join w [userDataPath w; "User"; "flags.json"].

(** Read or create the flags.json config file: the value of [flagsConfig]
    when the try statement is left. *)
Definition readFlagsConfig : M json :=
  try_catch
    (raw <- fs_readFileSync flagsConfigPath ;;
     parse (stripComments raw))
    (fun error =>
       (if bool_decide (error_code error = Some "ENOENT")
        then try_catch (fs_writeFileSync flagsConfigPath defaultFlagsConfigRaw)
                       (fun error => console_error error)
        else console_warn error) ;;;
       ret defaultFlagsConfig).

Definition configureCommandlineSwitches (cliArgs : gmap string argval)
  : M json :=
  flagsConfig <- readFlagsConfig ;;
  (* Append each flag to Electron *)
  entries <- await (own_entries flagsConfig) ;;
  forEach append_flag entries ;;;
  (* Support JS Flags *)
  (match getJSFlags cliArgs with
   | Some jsFlags =>
       if negb (String.eqb jsFlags "")
       then modify (emit (EvAppendSwitch "js-flags" (JStr jsFlags)))
       else ret tt
   | None => ret tt
   end) ;;;
  ret flagsConfig.

(** *** getNodeCachedDir *)

Definition _compute (process_env : gmap string string) : option string :=
  if (0 <? indexOf (process_argv w) "--no-cached-data")%Z then None
  (* IEnvironmentService.isBuilt *)
  else if truthy_str (process_env !! "VSCODE_DEV") then None
  else
    (* find commit id *)
    let commit := product_commit w in
    if negb (truthy_str commit) then None
    else Some (path_join w [userDataPath w; "CachedData"; default "" commit]).

Definition ensureExists (value : option string) : M (option string) :=
  try_catch
    (modify (emit (EvMkdirp value)) ;;;
     match bootstrap_mkdirp w value with
     | Some e => throw e
     | None => ret value
     end)
    (fun _ => (* ignore *) ret None).

(** *** NLS support *)

Definition getNLSConfiguration (locale : string) : M (option object) :=
  modify (emit (EvGetNLS locale)) ;;;
  await (lp_getNLSConfiguration w (product_commit w) (userDataPath w)
           (metaDataFile w) locale).

Definition getLocale : M string :=
  modify (emit EvGetLocale) ;;; ret (app_getLocale w).

Definition fallbackNls (locale : string) : object :=
  [("locale", JStr locale); ("availableLanguages", JObj [])].

Definition resolveNlsConfiguration (locale : option string) : M object :=
  (* First, we need to test a user defined locale. If it fails we try the
     app locale. If that fails we fall back to English. *)
  st <- get_state ;;
  (if truthy_str locale && negb (bool_decide (is_Some (nlsConfigurationPromise st)))
   then p <- promise_of (getNLSConfiguration (default "" locale)) ;;
        modify (set_nlsConfigurationPromise (Some p))
   else if negb (bool_decide (is_Some (nlsConfigurationPromise st)))
   then modify (set_nlsConfigurationPromise (Some (Ok None)))
   else ret tt) ;;;
  st <- get_state ;;
  nlsConfiguration <- await (default (Ok None) (nlsConfigurationPromise st)) ;;
  match nlsConfiguration with
  | None =>
      (* Try to use the app locale. *)
      appLocale <- getLocale ;;
      if String.eqb appLocale ""
      then ret (fallbackNls "en")
      else
        let appLocale := toLowerCase appLocale in
        nlsConfiguration <- getNLSConfiguration appLocale ;;
        match nlsConfiguration with
        | None => ret (fallbackNls appLocale)
        | Some c => ret c
        end
  | Some c =>
      (* We received a valid nlsConfig from a user defined locale *)
      ret c
  end.

(** The member [locale] of a parsed value. *)
Definition locale_member (v : json) : M (option json) :=
  match v with
  | JNull => throw TypeError
  | JObj props => ret (get_prop "locale" props)
  | _ => ret None
  end.

Definition localeConfigPath : string :=
  path_join w [userDataPath w; "User"; "locale.json"].

Definition getUserDefinedLocale : M (option string) :=
  let locale := args w !! "locale" in
  if truthy_arg locale then
    match locale with
    | Some (AString s) => ret (Some (toLowerCase s))
    | _ => throw TypeError            (* locale.toLowerCase is not a function *)
    end
  else
    let localeConfig := localeConfigPath in
    try_catch
      (raw <- bootstrap_readFile localeConfig ;;
       let content := stripComments raw in
       parsed <- parse content ;;
       value <- locale_member parsed ;;
       ret (match value with
            | Some (JStr s) =>
                if negb (String.eqb s "") then Some (toLowerCase s) else None
            | _ => None
            end))
      (fun _ => (* ignore *) ret None).

(** *** The startup sequencer *)

Definition startup (cachedDataDir : option string) (nlsConfig : object)
  : M unit :=
  let nlsConfig := set_prop "_languagePackSupport" (JBool true) nlsConfig in
  modify (fun st =>
    set_env (<["VSCODE_NLS_CONFIG" := JSON_stringify w (JObj nlsConfig)]>
               (env st)) st) ;;;
  modify (fun st =>
    set_env (<["VSCODE_NODE_CACHED_DATA_DIR" :=
                 if truthy_str cachedDataDir then default "" cachedDataDir
                 else ""]> (env st)) st) ;;;
  (* Load main in AMD *)
  modify (emit (EvLoadBundle "vs/code/electron-main/main")).

Definition onReady (nodeCachedDataDir : option string)
    (userDefinedLocale : outcome (option string)) : M unit :=
  try_catch
    (cachedDataDir <- ensureExists nodeCachedDataDir ;;
     locale <- await userDefinedLocale ;;
     nlsConfig <- resolveNlsConfiguration locale ;;
     startup cachedDataDir nlsConfig)
    (fun error => console_error error).

(** The callback registered on [userDefinedLocale] when the script loads. *)
Definition onUserDefinedLocale (userDefinedLocale : outcome (option string))
  : M unit :=
  match userDefinedLocale with
  | Ok locale =>
      st <- get_state ;;
      if truthy_str locale &&
         negb (bool_decide (is_Some (nlsConfigurationPromise st)))
      then p <- promise_of (getNLSConfiguration (default "" locale)) ;;
           modify (set_nlsConfigurationPromise (Some p))
      else ret tt
  | Throw _ => ret tt
  end.

(** The locale chain on its own, as the script runs it: the eager
    [getUserDefinedLocale], its callback, and the resolution behind the
    ready event. *)
Definition resolveLocale : M object :=
  userDefinedLocale <- promise_of getUserDefinedLocale ;;
  onUserDefinedLocale userDefinedLocale ;;;
  locale <- await userDefinedLocale ;;
  resolveNlsConfiguration locale.

(** The ready handler: optional content tracing, then [onReady]. *)
Definition onAppReady (nodeCachedDataDir : option string)
    (userDefinedLocale : outcome (option string)) : M unit :=
  (if truthy_arg (args w !! "trace")
   then
     let categoryFilter :=
       if truthy_arg (args w !! "trace-category-filter")
       then default (AString "*") (args w !! "trace-category-filter")
       else AString "*" in
     let traceOptions :=
       if truthy_arg (args w !! "trace-options")
       then default (AString "") (args w !! "trace-options")
       else AString "record-until-full,enable-sampling" in
     modify (emit (EvStartRecording categoryFilter traceOptions))
   else ret tt) ;;;
  onReady nodeCachedDataDir userDefinedLocale.

(** The script from top to bottom, up to and including the ready event.
    What comes before the locale in the script (portable mode, the parsed
    command line, the user data path, the working directory, the listeners
    for files and URLs to open) is given by the world. *)
Definition main : M unit :=
  userDefinedLocale <- promise_of getUserDefinedLocale ;;
  onUserDefinedLocale userDefinedLocale ;;;
  (* Cached data *)
  st <- get_state ;;
  let nodeCachedDataDir := _compute (env st) in
  (* Configure command line switches *)
  configureCommandlineSwitches (args w) ;;;
  (* Load our code once ready *)
  onAppReady nodeCachedDataDir userDefinedLocale.

End Script.

(** ** The listeners for files and URLs to open

    [registerListeners] leaves two arrays and the means to fill them
    behind.  The listener for open-file is registered at once and stays;
    [onOpenUrl] is registered for open-url each time will-finish-launching
    is emitted, and [getOpenUrls] removes one registration of it.  The
    emitter calls a listener once per registration; removing a listener
    that is not registered does nothing. *)

Inductive app_event : Type :=
| OpenFile (path : string)        (* app emits open-file *)
| WillFinishLaunching             (* app emits will-finish-launching *)
| OpenUrl (url : string)          (* app emits open-url *)
| GetOpenUrls.                    (* somebody calls global.getOpenUrls *)

Record Listeners : Type := {
  macOpenFiles : list string;
  openUrls : list string;
  (* how often onOpenUrl is registered for open-url *)
  onOpenUrl_listeners : nat;
  (* the URLs of the events on which preventDefault was called *)
  defaultPrevented : list string
}.

(** The state [registerListeners] sets up. *)
Definition registerListeners : Listeners :=
  {| macOpenFiles := []; openUrls := [];
     onOpenUrl_listeners := 0; defaultPrevented := [] |}.

Definition dispatch (l : Listeners) (e : app_event) : Listeners :=
  match e with
  | OpenFile path =>
      {| macOpenFiles := macOpenFiles l ++ [path];
         openUrls := openUrls l;
         onOpenUrl_listeners := onOpenUrl_listeners l;
         defaultPrevented := defaultPrevented l |}
  | WillFinishLaunching =>
      {| macOpenFiles := macOpenFiles l;
         openUrls := openUrls l;
         onOpenUrl_listeners := S (onOpenUrl_listeners l);
         defaultPrevented := defaultPrevented l |}
  | OpenUrl url =>
      (* onOpenUrl runs once per registration *)
      {| macOpenFiles := macOpenFiles l;
         openUrls := openUrls l ++ repeat url (onOpenUrl_listeners l);
         onOpenUrl_listeners := onOpenUrl_listeners l;
         defaultPrevented :=
           defaultPrevented l ++ repeat url (onOpenUrl_listeners l) |}
  | GetOpenUrls =>
      {| macOpenFiles := macOpenFiles l;
         openUrls := openUrls l;
         onOpenUrl_listeners := pred (onOpenUrl_listeners l);
         defaultPrevented := defaultPrevented l |}
  end.

(** [getOpenUrls] removes the listener and returns the array. *)
Definition getOpenUrls (l : Listeners) : list string * Listeners :=
  (openUrls l, dispatch l GetOpenUrls).

Definition dispatch_all (events : list app_event) (l : Listeners) : Listeners :=
  fold_left dispatch events l.

(** The paths and the URLs among the events, in order. *)
Definition opened_files (events : list app_event) : list string :=
  flat_map (fun e => match e with OpenFile path => [path] | _ => [] end) events.
Definition opened_urls (events : list app_event) : list string :=
  flat_map (fun e => match e with OpenUrl url => [url] | _ => [] end) events.

Definition is_launch (e : app_event) : bool :=
  match e with WillFinishLaunching => true | _ => false end.
Definition is_getOpenUrls (e : app_event) : bool :=
  match e with GetOpenUrls => true | _ => false end.

(** ** A JSON reader and writer for the example worlds

    [JSON.parse] and [JSON.stringify] belong to the platform; the script's
    properties below hold for any pair of functions.  The concrete pair here
    follows the JSON grammar over 8-bit text and serves the examples. *)

Module JSON.

Definition is_ws (c : ascii) : bool :=
  let n := nat_of_ascii c in
  (n =? 32) || (n =? 9) || (n =? 10) || (n =? 13).

Fixpoint skip_ws (s : string) : string :=
  match s with
  | String c s' => if is_ws c then skip_ws s' else s
  | EmptyString => s
  end.

Fixpoint span (p : ascii -> bool) (s : string) : string * string :=
  match s with
  | String c s' =>
      if p c then let '(a, b) := span p s' in (String c a, b)
      else (EmptyString, s)
  | EmptyString => (EmptyString, EmptyString)
  end.

(** The text behind a leading [c], if [s] starts with it. *)
Definition eat (c : ascii) (s : string) : option string :=
  match s with
  | String c' s' => if Ascii.eqb c' c then Some s' else None
  | EmptyString => None
  end.

Definition hex_value (c : ascii) : option nat :=
  let n := nat_of_ascii c in
  if (48 <=? n) && (n <=? 57) then Some (n - 48)
  else if (65 <=? n) && (n <=? 70) then Some (n - 55)
  else if (97 <=? n) && (n <=? 102) then Some (n - 87)
  else None.

Definition unescape (c : ascii) : option ascii :=
  if Ascii.eqb c dquote then Some dquote
  else if Ascii.eqb c backslash then Some backslash
  else if Ascii.eqb c slash then Some slash
  else if Ascii.eqb c "b" then Some "008"%char
  else if Ascii.eqb c "f" then Some "012"%char
  else if Ascii.eqb c "n" then Some LF
  else if Ascii.eqb c "r" then Some CR
  else if Ascii.eqb c "t" then Some "009"%char
  else None.

(** A code unit below 256 written as four hexadecimal digits. *)
Definition hex4 (h1 h2 h3 h4 : ascii) : option ascii :=
  match hex_value h1, hex_value h2, hex_value h3, hex_value h4 with
  | Some 0, Some 0, Some a, Some b => Some (ascii_of_nat (16 * a + b))
  | _, _, _, _ => None
  end.

(** The characters of a string literal behind its opening quote. *)
Fixpoint chars (s : string) : option (string * string) :=
  match s with
  | EmptyString => None
  | String c s' =>
      if Ascii.eqb c dquote then Some (EmptyString, s')
      else if Ascii.eqb c backslash then
        match s' with
        | String e s'' =>
            match unescape e with
            | Some d =>
                match chars s'' with
                | Some (t, r) => Some (String d t, r)
                | None => None
                end
            | None =>
                match s'' with
                | String h1 (String h2 (String h3 (String h4 s5))) =>
                    if Ascii.eqb e "u" then
                      match hex4 h1 h2 h3 h4, chars s5 with
                      | Some d, Some (t, r) => Some (String d t, r)
                      | _, _ => None
                      end
                    else None
                | _ => None
                end
            end
        | EmptyString => None
        end
      else if nat_of_ascii c <? 32 then None
      else
        match chars s' with
        | Some (t, r) => Some (String c t, r)
        | None => None
        end
  end.

Definition digits (s : string) : option (string * string) :=
  let '(d, r) := span is_digit s in
  if String.eqb d "" then None else Some (d, r).

Definition fraction (s : string) : option (string * string) :=
  match eat "." s with
  | Some s' =>
      match digits s' with
      | Some (d, r) => Some ("." +:+ d, r)
      | None => None
      end
  | None => Some ("", s)
  end.

Definition exponent (s : string) : option (string * string) :=
  match s with
  | String e s' =>
      if Ascii.eqb e "e" || Ascii.eqb e "E" then
        let '(sg, s'') :=
          match eat "+" s', eat "-" s' with
          | Some t, _ => ("+", t)
          | None, Some t => ("-", t)
          | None, None => ("", s')
          end in
        match digits s'' with
        | Some (d, r) => Some (str1 e +:+ sg +:+ d, r)
        | None => None
        end
      else Some ("", s)
  | EmptyString => Some ("", s)
  end.

Definition number (s : string) : option (json * string) :=
  let '(sign, s1) :=
    match eat "-" s with
    | Some s' => ("-", s')
    | None => ("", s)
    end in
  match digits s1 with
  | None => None
  | Some (int, s2) =>
      if (1 <? String.length int) && String.prefix "0" int then None
      else
        match fraction s2 with
        | None => None
        | Some (fr, s3) =>
            match exponent s3 with
            | None => None
            | Some (ex, s4) => Some (JNum (sign +:+ int +:+ fr +:+ ex), s4)
            end
        end
  end.

Definition keyword (kw : string) (v : json) (s : string)
  : option (json * string) :=
  if String.prefix kw s
  then Some (v, substring (String.length kw)
                          (String.length s - String.length kw) s)
  else None.

Fixpoint value (fuel : nat) (s : string) : option (json * string) :=
  match fuel with
  | O => None
  | S fuel' =>
      match skip_ws s with
      | EmptyString => None
      | String c s' as s0 =>
          if Ascii.eqb c "{" then
            match eat "}" (skip_ws s') with
            | Some r => Some (JObj [], r)
            | None => members fuel' (skip_ws s') []
            end
          else if Ascii.eqb c "[" then
            match eat "]" (skip_ws s') with
            | Some r => Some (JArr [], r)
            | None => elements fuel' s' []
            end
          else if Ascii.eqb c dquote then
            match chars s' with
            | Some (t, r) => Some (JStr t, r)
            | None => None
            end
          else if Ascii.eqb c "t" then keyword "true" (JBool true) s0
          else if Ascii.eqb c "f" then keyword "false" (JBool false) s0
          else if Ascii.eqb c "n" then keyword "null" JNull s0
          else number s0
      end
  end
with members (fuel : nat) (s : string) (acc : object)
  : option (json * string) :=
  match fuel with
  | O => None
  | S fuel' =>
      match eat dquote s with
      | None => None
      | Some s1 =>
          match chars s1 with
          | None => None
          | Some (k, r) =>
              match eat ":" (skip_ws r) with
              | None => None
              | Some r1 =>
                  match value fuel' r1 with
                  | None => None
                  | Some (v, r2) =>
                      match eat "," (skip_ws r2), eat "}" (skip_ws r2) with
                      | Some r3, _ =>
                          members fuel' (skip_ws r3) (set_prop k v acc)
                      | None, Some r3 => Some (JObj (set_prop k v acc), r3)
                      | None, None => None
                      end
                  end
              end
          end
      end
  end
with elements (fuel : nat) (s : string) (acc : list json)
  : option (json * string) :=
  match fuel with
  | O => None
  | S fuel' =>
      match value fuel' s with
      | None => None
      | Some (v, r) =>
          match eat "," (skip_ws r), eat "]" (skip_ws r) with
          | Some r1, _ => elements fuel' r1 (acc ++ [v])
          | None, Some r1 => Some (JArr (acc ++ [v]), r1)
          | None, None => None
          end
      end
  end.

Definition parse (text : string) : option json :=
  match value (2 * String.length text + 2) text with
  | Some (v, rest) =>
      if String.eqb (skip_ws rest) "" then Some v else None
  | None => None
  end.

Definition hex_digit (n : nat) : ascii :=
  if n <? 10 then ascii_of_nat (48 + n) else ascii_of_nat (87 + n).

Definition escape_char (c : ascii) : string :=
  let n := nat_of_ascii c in
  if Ascii.eqb c dquote then String backslash (str1 dquote)
  else if Ascii.eqb c backslash then String backslash (str1 backslash)
  else if n =? 8 then String backslash "b"
  else if n =? 12 then String backslash "f"
  else if n =? 10 then String backslash "n"
  else if n =? 13 then String backslash "r"
  else if n =? 9 then String backslash "t"
  else if n <? 32
       then String backslash ("u00" +:+ String (hex_digit (n / 16))
                                            (str1 (hex_digit (n mod 16))))
  else str1 c.

Fixpoint escape (s : string) : string :=
  match s with
  | EmptyString => EmptyString
  | String c s' => escape_char c +:+ escape s'
  end.

Definition quote (s : string) : string := dq +:+ escape s +:+ dq.

Fixpoint stringify (v : json) : string :=
  match v with
  | JNull => "null"
  | JBool true => "true"
  | JBool false => "false"
  | JNum l => l
  | JStr s => quote s
  | JArr items => "[" +:+ String.concat "," (List.map stringify items) +:+ "]"
  | JObj props =>
      "{" +:+
      String.concat ","
        (List.map (fun kv => quote (fst kv) +:+ ":" +:+ stringify (snd kv))
                  props)
      +:+ "}"
  end.

End JSON.

(** ** Example worlds *)

(** A POSIX-like [path.join] for segments that are already normalized. *)
Definition join_segments (segments : list string) : string :=
  String.concat "/" segments.

(** A provider with language packs for the locales [known] and no others. *)
Definition languagePack (locale : string) : object :=
  [("locale", JStr locale); ("availableLanguages", JObj [("*", JStr locale)])].

Definition packsFor (known : list string) (commit : option string)
    (userData metaData locale : string) : outcome (option object) :=
  if existsb (String.eqb locale) known
  then Ok (Some (languagePack locale)) else Ok None.

Definition frenchOnly := packsFor ["fr"].


Definition exampleWorld (cli : gmap string argval) (appLocale : string)
    (provider : option string -> string -> string -> string ->
                outcome (option object)) : World :=
  {| path_join := join_segments;
     JSON_parse := JSON.parse;
     JSON_stringify := JSON.stringify;
     process_argv := ["/usr/bin/code"; "."];
     fs_write_fault := fun _ => None;
     args := cli;
     product_commit := Some "abc123";
     userDataPath := "/home/u/.config/Code";
     metaDataFile := "/usr/share/code/nls.metadata.json";
     app_getLocale := appLocale;
     lp_getNLSConfiguration := provider;
     bootstrap_mkdirp := fun _ => None |}.

Definition initialState (disk : gmap string node) : State :=
  {| files := disk; env := ∅; nlsConfigurationPromise := None;
     console := []; trace := [] |}.

(** ** Vocabulary of the design document *)

(** The flag is among the arguments behind the executable's own path. *)
Definition no_cached_data_flag (argv : list string) : Prop :=
  In "--no-cached-data" (List.tl argv).

(** Development mode: VSCODE_DEV is set to something. *)
Definition dev_mode (process_env : gmap string string) : Prop :=
  exists v, process_env !! "VSCODE_DEV" = Some v /\ v <> "".

(** No build commit identifier is known. *)
Definition commit_unknown (w : World) : Prop :=
  product_commit w = None \/ product_commit w = Some "".

(** ** Vocabulary for the flags store, the locale chain and the sequencer *)

(** Two states that differ in their trace at most. *)
Definition same_but_trace (st st' : State) : Prop :=
  files st' = files st /\ env st' = env st
  /\ nlsConfigurationPromise st' = nlsConfigurationPromise st
  /\ console st' = console st.

(** What the flags file on disk amounts to, and what a load leaves on disk. *)
Definition flagsOnDisk (w : World) (disk : gmap string node) : json :=
  match disk !! flagsConfigPath w with
  | Some (File raw) =>
      match JSON_parse w (stripComments raw) with
      | Some v => v
      | None => defaultFlagsConfig
      end
  | _ => defaultFlagsConfig
  end.

Definition diskAfterLoad (w : World) (disk : gmap string node)
  : gmap string node :=
  match disk !! flagsConfigPath w, fs_write_fault w (flagsConfigPath w) with
  | None, None => <[flagsConfigPath w := File defaultFlagsConfigRaw]> disk
  | _, _ => disk
  end.

(** What a load writes to the console. *)
Definition loadLog (w : World) (disk : gmap string node) : list log_line :=
  match disk !! flagsConfigPath w with
  | None =>
      match fs_write_fault w (flagsConfigPath w) with
      | Some e => [LogError e]
      | None => []
      end
  | Some (Unreadable f) => [LogWarn (SystemError (fault_code f))]
  | Some (File raw) =>
      match JSON_parse w (stripComments raw) with
      | Some _ => []
      | None => [LogWarn SyntaxError]
      end
  end.

(** The locale the persisted file holds, if it holds one. *)
Definition persistedLocale (w : World) (disk : gmap string node)
  : option string :=
  match disk !! localeConfigPath w with
  | Some (File raw) =>
      match JSON_parse w (stripComments raw) with
      | Some (JObj props) =>
          match get_prop "locale" props with
          | Some (JStr s) =>
              if negb (String.eqb s "") then Some (toLowerCase s) else None
          | _ => None
          end
      | _ => None
      end
  | _ => None
  end.

(** The provider's answer for a locale. *)
Definition provider (w : World) (locale : string) : outcome (option object) :=
  lp_getNLSConfiguration w (product_commit w) (userDataPath w) (metaDataFile w)
    locale.

Definition emit_all (events : list event) (st : State) : State :=
  fold_left (fun st e => emit e st) events st.

(** Step 3 of the chain: the platform locale, then the provider, then the
    configuration built on the spot. *)
Definition step3_events (w : World) : list event :=
  EvGetLocale ::
  (if String.eqb (app_getLocale w) "" then []
   else [EvGetNLS (toLowerCase (app_getLocale w))]).

Definition step3_result (w : World) : outcome object :=
  if String.eqb (app_getLocale w) "" then Ok (fallbackNls "en")
  else
    match provider w (toLowerCase (app_getLocale w)) with
    | Throw e => Throw e
    | Ok None => Ok (fallbackNls (toLowerCase (app_getLocale w)))
    | Ok (Some c) => Ok c
    end.

(** What awaiting the memoized promise [p] leads to. *)
Definition after_promise (w : World) (p : outcome (option object)) (st : State)
  : outcome object * State :=
  match p with
  | Throw e => (Throw e, st)
  | Ok (Some c) => (Ok c, st)
  | Ok None => (step3_result w, emit_all (step3_events w) st)
  end.

(** ** Vocabulary for the comment stripper *)

Fixpoint all_chars (p : ascii -> bool) (s : string) : bool :=
  match s with
  | EmptyString => true
  | String c s' => p c && all_chars p s'
  end.

Definition not_line_terminator (c : ascii) : bool :=
  negb (is_line_terminator c).

(** The end of a line: a newline with its optional carriage return, or the
    end of the input. *)
Definition eol : regex := Alt newline Eos.

Definition two_slashes : string := String slash (str1 slash).

(** The inside of a block comment that the pattern can walk through: no
    star directly before a slash, and every carriage return directly before
    a line feed. *)
Fixpoint block_body (s : string) : bool :=
  match s with
  | EmptyString => true
  | String c s' =>
      if Ascii.eqb c star then
        match s' with
        | String c' _ => negb (Ascii.eqb c' slash) && block_body s'
        | EmptyString => true
        end
      else if Ascii.eqb c CR then
        match s' with
        | String c' s'' => Ascii.eqb c' LF && block_body s''
        | EmptyString => false
        end
      else block_body s'
  end.

Definition star_slash : string := String star (str1 slash).
Definition slash_star : string := String slash (str1 star).

(** The closing star and slash, as the continuation of the lazy star. *)
Definition closing : cont := fun s => m (chr star) s (fun s1 => m (chr slash) s1 Some).

(** The inside of a string literal quoted by [q]: characters other than the
    quote and the backslash, and backslashes followed by a character that is
    not a line terminator. *)
Fixpoint string_body (q : ascii) (s : string) : bool :=
  match s with
  | EmptyString => true
  | String c s' =>
      if Ascii.eqb c backslash then
        match s' with
        | String e s'' => negb (is_line_terminator e) && string_body q s''
        | EmptyString => false
        end
      else negb (Ascii.eqb c q) && string_body q s'
  end.

(** The class of the characters a string may hold unescaped. *)
Definition unescaped (q : ascii) (c : ascii) : bool :=
  negb (existsb (Ascii.eqb c) [backslash; q]).

(** The rounds of the string pattern between the quotes. *)
Definition string_rounds (q : ascii) : regex :=
  Star Greedy (Seq (Star Greedy (none_of [backslash; q]))
                   (opt (Seq (chr backslash) dot))).

(** ** A reference comment stripper

    Written after the words of the design document: block comments and
    line comments outside string literals are removed, string literals in
    single or double quotes are kept with backslash escapes honoured, a line
    comment gives way to the newline that ends it, carriage return included,
    and a line comment at the end of the input disappears. *)

Inductive mode : Type :=
| Code                      (* outside strings and comments *)
| AfterSlash                (* behind a slash that may open a comment *)
| InString (q : ascii)      (* inside a string quoted by q *)
| Escaped (q : ascii)       (* behind a backslash inside a string *)
| InBlock                   (* inside a block comment *)
| InBlockStar               (* behind a star inside a block comment *)
| InLine                    (* inside a line comment *)
| InLineCR.                 (* behind a carriage return inside a line comment *)

Definition is_quote (c : ascii) : bool :=
  Ascii.eqb c dquote || Ascii.eqb c squote.

Fixpoint reference (md : mode) (s : string) : string :=
  match s with
  | EmptyString =>
      match md with
      | AfterSlash => str1 slash
      | _ => EmptyString
      end
  | String c s' =>
      match md with
      | Code =>
          if is_quote c then String c (reference (InString c) s')
          else if Ascii.eqb c slash then reference AfterSlash s'
          else String c (reference Code s')
      | AfterSlash =>
          if Ascii.eqb c slash then reference InLine s'
          else if Ascii.eqb c star then reference InBlock s'
          else if is_quote c
               then String slash (String c (reference (InString c) s'))
               else String slash (String c (reference Code s'))
      | InString q =>
          if Ascii.eqb c backslash then String c (reference (Escaped q) s')
          else if Ascii.eqb c q then String c (reference Code s')
          else String c (reference (InString q) s')
      | Escaped q => String c (reference (InString q) s')
      | InBlock =>
          if Ascii.eqb c star then reference InBlockStar s'
          else reference InBlock s'
      | InBlockStar =>
          if Ascii.eqb c slash then reference Code s'
          else if Ascii.eqb c star then reference InBlockStar s'
          else reference InBlock s'
      | InLine =>
          if Ascii.eqb c LF then String LF (reference Code s')
          else if Ascii.eqb c CR then reference InLineCR s'
          else reference InLine s'
      | InLineCR =>
          if Ascii.eqb c LF then String CR (String LF (reference Code s'))
          else if Ascii.eqb c CR then reference InLineCR s'
          else reference InLine s'
      end
  end.

Definition referenceStrip (content : string) : string := reference Code content.

(** The inside of a block comment: no star directly before a slash. *)
Fixpoint no_close (s : string) : bool :=
  match s with
  | EmptyString => true
  | String c s' =>
      (if Ascii.eqb c star then
         match s' with
         | String c' _ => negb (Ascii.eqb c' slash)
         | EmptyString => true
         end
       else true) && no_close s'
  end.

(** JSON with comments, as far as its lexical structure goes: string
    literals, block comments whose inside is of the class [block], line
    comments up to the end of their line, and other characters that open
    neither a string nor a comment. *)
Inductive jsonc (block : string -> bool) : string -> Prop :=
| jsonc_end : jsonc block ""
| jsonc_char (c : ascii) (s : string) :
    is_quote c = false -> Ascii.eqb c slash = false ->
    jsonc block s -> jsonc block (String c s)
| jsonc_string (q : ascii) (body s : string) :
    is_quote q = true -> string_body q body = true ->
    jsonc block s -> jsonc block (String q (body +:+ String q s))
| jsonc_block (body s : string) :
    block body = true ->
    jsonc block s -> jsonc block (slash_star +:+ body +:+ star_slash +:+ s)
| jsonc_line_lf (body s : string) :
    all_chars not_line_terminator body = true ->
    jsonc block s -> jsonc block (two_slashes +:+ body +:+ String LF s)
| jsonc_line_crlf (body s : string) :
    all_chars not_line_terminator body = true ->
    jsonc block s ->
    jsonc block (two_slashes +:+ body +:+ String CR (String LF s))
| jsonc_line_end (body : string) :
    all_chars not_line_terminator body = true ->
    jsonc block (two_slashes +:+ body).

(** Well-formed input, and well-formed input in whose block comments every
    carriage return comes with its line feed. *)
Definition wellformed_jsonc : string -> Prop := jsonc no_close.
Definition regular_jsonc : string -> Prop := jsonc block_body.

(** ** Example texts *)

(** A locale.json whose locale member is the empty string. *)
Definition emptyLocaleJson : string :=
  "{" +:+ dq +:+ "locale" +:+ dq +:+ ": " +:+ dq +:+ dq +:+ "}".

Definition germanLocaleJson : string :=
  "{ // my language" +:+ nl +:+
  "  " +:+ dq +:+ "locale" +:+ dq +:+ ": " +:+ dq +:+ "DE" +:+ dq +:+ " }".

(** A block comment that holds a carriage return on its own, and a flags
    file that starts with it. *)
Definition loneCRComment : string := slash_star +:+ str1 CR +:+ star_slash.
Definition loneCRFlags : string := loneCRComment +:+ "{}".

(** The same comment with the carriage return before a line feed. *)
Definition crlfComment : string :=
  slash_star +:+ String CR (str1 LF) +:+ star_slash.

(** ** Vocabulary for the JS flags and for texts without comments *)

(** What the pattern of getJSFlags looks for: the option name with its
    equals sign, directly followed by a digit. *)
Definition max_old_space_size_eq : string := "max_old_space_size=".

Definition sets_old_space_size (flags : string) : Prop :=
  exists before d after,
    flags = before +:+ max_old_space_size_eq +:+ String d after
    /\ is_digit d = true.

Definition no_slash (c : ascii) : bool := negb (Ascii.eqb c slash).

(** ** Vocabulary for what a part of the script calls and changes *)

(** The queries: calls that change nothing in the process. *)
Definition is_nls_query (e : event) : bool :=
  match e with EvGetLocale | EvGetNLS _ => true | _ => false end.

Definition is_query (e : event) : bool :=
  match e with
  | EvReadFile _ | EvGetLocale | EvGetNLS _ | EvMkdirp _ => true
  | _ => false
  end.

Definition not_load (e : event) : bool := negb (is_load e).

(** The trace grew by calls of the class [allowed]. *)
Definition grows (allowed : event -> bool) (st st' : State) : Prop :=
  exists events,
    trace st' = trace st ++ events /\ forallb allowed events = true.

(** Nothing but calls of the class [allowed] happened: files, environment
    and console are as before. *)
Definition calls_only (allowed : event -> bool) (st st' : State) : Prop :=
  files st' = files st /\ env st' = env st /\ console st' = console st
  /\ grows allowed st st'.

(** A part of the script whose every run relates the state before to the
    state after. *)
Definition preserves {A} (R : relation State) (c : M A) : Prop :=
  forall st, R st (snd (c st)).

(** The entry point of the main bundle. *)
Definition main_bundle : event := EvLoadBundle "vs/code/electron-main/main".

(** The flag a call appends to the command line. *)
Definition appended_flag (e : event) : option string :=
  match e with
  | EvAppendArgument flag | EvAppendSwitch flag _ => Some flag
  | _ => None
  end.

(** The calls one entry of the flags configuration leads to, the call for
    the JS flags, and the file-system calls of a load. *)
Definition switch_events (entry : string * json) : list event :=
  (if is_true_or_true_string entry.2 && String.eqb entry.1 "disable-gpu"
   then [EvDisableHardwareAcceleration] else [])
  ++ [if is_true_or_true_string entry.2 then EvAppendArgument entry.1
      else EvAppendSwitch entry.1 entry.2].

Definition js_flags_events (cliArgs : gmap string argval) : list event :=
  match getJSFlags cliArgs with
  | Some jsFlags =>
      if negb (String.eqb jsFlags "")
      then [EvAppendSwitch "js-flags" (JStr jsFlags)] else []
  | None => []
  end.

Definition flags_file_events (w : World) (disk : gmap string node)
  : list event :=
  EvReadFile (flagsConfigPath w) ::
  match disk !! flagsConfigPath w with
  | None => [EvWriteFile (flagsConfigPath w)]
  | Some _ => []
  end.

(** The trace grew by calls other than the load of the bundle, and then
    by nothing else or by that load. *)
Definition loads_last (st st' : State) : Prop :=
  exists events,
    forallb not_load events = true
    /\ (trace st' = trace st ++ events
        \/ trace st' = trace st ++ events ++ [main_bundle]).

(** ** More example worlds and texts *)

(** A world whose file system refuses every write. *)
Definition readOnlyWorld : World :=
  let w := exampleWorld ∅ "en-US" frenchOnly in
  {| path_join := path_join w;
     JSON_parse := JSON_parse w;
     JSON_stringify := JSON_stringify w;
     process_argv := process_argv w;
     fs_write_fault := fun _ => Some (SystemError "EROFS");
     args := args w;
     product_commit := product_commit w;
     userDataPath := userDataPath w;
     metaDataFile := metaDataFile w;
     app_getLocale := app_getLocale w;
     lp_getNLSConfiguration := lp_getNLSConfiguration w;
     bootstrap_mkdirp := bootstrap_mkdirp w |}.

(** A flags file that disables the GPU. *)
Definition gpuFlagsJson : string :=
  "{ " +:+ dq +:+ "disable-gpu" +:+ dq +:+ ": true }".

(** A locale file without comments. *)
Definition plainLocaleJson : string :=
  "{ " +:+ dq +:+ "locale" +:+ dq +:+ ": " +:+ dq +:+ "DE" +:+ dq +:+ " }".


(** * Properties *)

(** ** getJSFlags *)

Lemma truthy_str_true (v : option string) :
  truthy_str v = true <-> exists s, v = Some s /\ s <> "".
Proof.
  destruct v as [s|]; simpl.
  - rewrite negb_true_iff, String.eqb_neq. split.
    + intros H. exists s. split; [reflexivity | exact H].
    + intros (s' & Hs & Hne). injection Hs as ->. exact Hne.
  - split; [discriminate | intros (s & Hs & _); discriminate].
Qed.

(** Without js-flags, a max-memory value becomes the only flag. *)
Lemma getJSFlags_only_max_memory (cliArgs : gmap string argval) (n : string) :
  (cliArgs !! "js-flags" = None \/ cliArgs !! "js-flags" = Some (AString "")) ->
  cliArgs !! "max-memory" = Some (AString n) ->
  n <> "" ->
  getJSFlags cliArgs = Some ("--max_old_space_size=" +:+ n).
Proof.
  intros Hjs Hmm Hn. unfold getJSFlags. rewrite Hmm.
  assert (Ht : truthy_arg (Some (AString n)) = true).
  { simpl. apply negb_true_iff, String.eqb_neq, Hn. }
  rewrite Ht.
  destruct Hjs as [-> | ->]; reflexivity.
Qed.

(** js-flags that already set the old space size are returned as they are. *)
Lemma getJSFlags_keeps_old_space_size (cliArgs : gmap string argval)
    (flags : string) :
  cliArgs !! "js-flags" = Some (AString flags) ->
  found old_space_size flags = true ->
  getJSFlags cliArgs = Some flags.
Proof.
  intros Hjs Hfound. unfold getJSFlags. rewrite Hjs. simpl arg_to_string.
  rewrite Hfound, andb_false_r.
  assert (Hne : flags <> "").
  { intros ->. vm_compute in Hfound. discriminate. }
  simpl truthy_arg. apply String.eqb_neq in Hne. rewrite Hne. simpl.
  reflexivity.
Qed.

(** C3. With max-memory=4096 and no js-flags, getJSFlags returns exactly
    --max_old_space_size=4096; with js-flags --foo --max_old_space_size=2048
    and max-memory=4096 it returns the js-flags string as it is, without a
    second --max_old_space_size token. *)
Theorem getJSFlags_max_memory :
  getJSFlags {["max-memory" := AString "4096"]}
    = Some "--max_old_space_size=4096"
  /\ getJSFlags (<["js-flags" := AString ""]> {["max-memory" := AString "4096"]})
    = Some "--max_old_space_size=4096"
  /\ getJSFlags (<["js-flags" := AString "--foo --max_old_space_size=2048"]>
                  {["max-memory" := AString "4096"]})
    = Some "--foo --max_old_space_size=2048".
Proof. repeat split; vm_compute; reflexivity. Qed.

(** ** The cache directory *)

Lemma indexOf_In (l : list string) (x : string) :
  (0 <= indexOf l x)%Z <-> In x l.
Proof.
  induction l as [|y l IH]; simpl.
  - split; [lia | tauto].
  - destruct (String.eqb_spec y x) as [->|Hne].
    + split; [auto | lia].
    + destruct (indexOf l x <? 0)%Z eqn:E.
      * apply Z.ltb_lt in E. split; [lia|].
        intros [H|H]; [contradiction|]. apply IH in H. lia.
      * apply Z.ltb_ge in E. split; [intros _; right; apply IH; lia | lia].
Qed.

Lemma indexOf_positive (l : list string) (x : string) :
  List.hd_error l <> Some x ->
  ((0 < indexOf l x)%Z <-> In x (List.tl l)).
Proof.
  destruct l as [|y l]; simpl.
  - intros _. split; [lia | tauto].
  - intros Hhd. destruct (String.eqb_spec y x) as [->|Hne]; [congruence|].
    pose proof (indexOf_In l x) as HIn.
    destruct (indexOf l x <? 0)%Z eqn:E.
    + apply Z.ltb_lt in E. split; [lia | intros H; apply HIn in H; lia].
    + apply Z.ltb_ge in E. split; [intros _; apply HIn; lia | lia].
Qed.

(** C8. The cache directory is disabled exactly when --no-cached-data is
    among the arguments, or the process runs in development mode, or no
    build commit is known; otherwise it is the path joined from the user
    data path, CachedData and the commit; and the result depends on nothing
    but these inputs, so computing it again gives the same result.  The
    first entry of process.argv is the executable's path, not the flag. *)
Theorem compute_cached_dir (w : World) (process_env : gmap string string) :
  List.hd_error (process_argv w) <> Some "--no-cached-data" ->
  (_compute w process_env = None <->
     no_cached_data_flag (process_argv w) \/ dev_mode process_env \/
     commit_unknown w)
  /\ (forall commit,
        ~ no_cached_data_flag (process_argv w) -> ~ dev_mode process_env ->
        product_commit w = Some commit -> commit <> "" ->
        _compute w process_env
          = Some (path_join w [userDataPath w; "CachedData"; commit]))
  /\ (forall process_env' : gmap string string,
        process_env' !! "VSCODE_DEV" = process_env !! "VSCODE_DEV" ->
        _compute w process_env' = _compute w process_env).
Proof.
  intros Hexe.
  pose proof (indexOf_positive _ _ Hexe) as Hflag.
  unfold no_cached_data_flag, dev_mode, commit_unknown, _compute.
  destruct (0 <? indexOf (process_argv w) "--no-cached-data")%Z eqn:Eflag.
  - apply Z.ltb_lt, Hflag in Eflag.
    split; [split; auto|]. split; [intros; contradiction | reflexivity].
  - assert (Hnoflag : ~ In "--no-cached-data" (List.tl (process_argv w))).
    { intros H. apply Hflag, Z.ltb_lt in H. congruence. }
    split; [|split].
    + destruct (truthy_str (process_env !! "VSCODE_DEV")) eqn:Edev.
      * apply truthy_str_true in Edev. split; auto.
      * destruct (truthy_str (product_commit w)) eqn:Ecommit; simpl.
        -- split; [discriminate|].
           apply truthy_str_true in Ecommit as (c & Hc & Hne).
           intros [H | [H | [H | H]]].
           ++ contradiction.
           ++ apply truthy_str_true in H. congruence.
           ++ congruence.
           ++ congruence.
        -- split; [intros _|reflexivity]. right. right.
           destruct (product_commit w) as [c|]; [|auto].
           simpl in Ecommit. apply negb_false_iff, String.eqb_eq in Ecommit.
           subst. auto.
    + intros commit _ Hdev Hcommit Hne.
      destruct (truthy_str (process_env !! "VSCODE_DEV")) eqn:Edev.
      * apply truthy_str_true in Edev. contradiction.
      * rewrite Hcommit. simpl. apply String.eqb_neq in Hne. rewrite Hne.
        reflexivity.
    + intros process_env' ->. reflexivity.
Qed.

(** A built product started without the flag. *)
Lemma compute_cached_dir_witness :
  let w := exampleWorld ∅ "en-US" frenchOnly in
  _compute w ∅ = Some "/home/u/.config/Code/CachedData/abc123"
  /\ (_compute w ∅ = None <->
       no_cached_data_flag (process_argv w) \/ dev_mode ∅ \/ commit_unknown w).
Proof.
  intros w.
  destruct (compute_cached_dir w ∅) as (Hnone & Hsome & _).
  - simpl. discriminate.
  - split; [|exact Hnone]. vm_compute. reflexivity.
Defined.

(** ** The startup step *)

Lemma get_set_prop_eq (key : string) (v : json) (o : object) :
  get_prop key (set_prop key v o) = Some v.
Proof.
  induction o as [|[k v0] o IH]; simpl.
  - rewrite String.eqb_refl. reflexivity.
  - destruct (String.eqb k key) eqn:E; simpl; rewrite E; auto.
Qed.

Lemma get_set_prop_ne (key k : string) (v : json) (o : object) :
  k <> key -> get_prop k (set_prop key v o) = get_prop k o.
Proof.
  intros Hne. induction o as [|[k0 v0] o IH]; simpl.
  - apply not_eq_sym, String.eqb_neq in Hne. rewrite Hne. reflexivity.
  - destruct (String.eqb k0 key) eqn:E; simpl.
    + apply String.eqb_eq in E. subst k0.
      apply not_eq_sym, String.eqb_neq in Hne. rewrite Hne. reflexivity.
    + destruct (String.eqb k0 k); auto.
Qed.

Lemma startup_run (w : World) (cachedDataDir : option string)
    (nlsConfig : object) (st : State) :
  let serialized := set_prop "_languagePackSupport" (JBool true) nlsConfig in
  exists st',
    startup w cachedDataDir nlsConfig st = (Ok tt, st')
    /\ env st' !! "VSCODE_NLS_CONFIG"
         = Some (JSON_stringify w (JObj serialized))
    /\ env st' !! "VSCODE_NODE_CACHED_DATA_DIR"
         = Some (if truthy_str cachedDataDir then default "" cachedDataDir
                 else "")
    /\ files st' = files st
    /\ console st' = console st
    /\ nlsConfigurationPromise st' = nlsConfigurationPromise st
    /\ trace st' = trace st ++ [EvLoadBundle "vs/code/electron-main/main"].
Proof.
  eexists. split; [reflexivity|]. simpl.
  split; [rewrite lookup_insert_ne by discriminate; apply lookup_insert_eq|].
  split; [apply lookup_insert_eq|]. repeat split.
Qed.

(** C10. Whatever NLS configuration the startup step is given, the fallback
    built by the script included, the object it serializes into
    VSCODE_NLS_CONFIG is that configuration with _languagePackSupport set
    to true; the other properties are as they were, and the bundle is loaded
    after the variable is set. *)
Theorem startup_sets_languagePackSupport (w : World)
    (cachedDataDir : option string) (nlsConfig : object) (st : State) :
  exists (serialized : object) (st' : State),
    startup w cachedDataDir nlsConfig st = (Ok tt, st')
    /\ env st' !! "VSCODE_NLS_CONFIG"
         = Some (JSON_stringify w (JObj serialized))
    /\ get_prop "_languagePackSupport" serialized = Some (JBool true)
    /\ (forall k, k <> "_languagePackSupport" ->
          get_prop k serialized = get_prop k nlsConfig)
    /\ trace st' = trace st ++ [EvLoadBundle "vs/code/electron-main/main"].
Proof.
  destruct (startup_run w cachedDataDir nlsConfig st)
    as (st' & Hrun & Hnls & _ & _ & _ & _ & Htrace).
  exists (set_prop "_languagePackSupport" (JBool true) nlsConfig), st'.
  split; [exact Hrun|]. split; [exact Hnls|].
  split; [apply get_set_prop_eq|].
  split; [|exact Htrace].
  intros k Hk. apply get_set_prop_ne, Hk.
Qed.

(** The fallback configuration goes the same way. *)
Lemma startup_fallback_example :
  let w := exampleWorld ∅ "DE-AT" frenchOnly in
  env (snd (startup w None (fallbackNls "de-at") (initialState ∅)))
    !! "VSCODE_NLS_CONFIG"
  = Some (JSON.stringify
            (JObj [("locale", JStr "de-at"); ("availableLanguages", JObj []);
                   ("_languagePackSupport", JBool true)])).
Proof. vm_compute. reflexivity. Qed.

(** When the platform's JSON.parse reads back what JSON.stringify wrote, the
    next stage finds the flag set. *)
Lemma next_stage_observes_languagePackSupport (w : World)
    (cachedDataDir : option string) (nlsConfig : object) (st : State) :
  (forall v, JSON_parse w (JSON_stringify w v) = Some v) ->
  exists text props,
    env (snd (startup w cachedDataDir nlsConfig st)) !! "VSCODE_NLS_CONFIG"
      = Some text
    /\ JSON_parse w text = Some (JObj props)
    /\ get_prop "_languagePackSupport" props = Some (JBool true).
Proof.
  intros Hround.
  destruct (startup_run w cachedDataDir nlsConfig st)
    as (st' & Hrun & Hnls & _).
  rewrite Hrun. simpl. do 2 eexists.
  split; [exact Hnls|]. split; [apply Hround|]. apply get_set_prop_eq.
Qed.

(** ** The flags store *)

Lemma same_but_trace_refl (st : State) : same_but_trace st st.
Proof. repeat split. Qed.

Lemma same_but_trace_trans (st1 st2 st3 : State) :
  same_but_trace st1 st2 -> same_but_trace st2 st3 -> same_but_trace st1 st3.
Proof.
  intros (H1 & H2 & H3 & H4) (G1 & G2 & G3 & G4).
  repeat split; congruence.
Qed.

Lemma append_flag_run (entry : string * json) (st : State) :
  exists st', append_flag entry st = (Ok tt, st') /\ same_but_trace st st'.
Proof.
  destruct entry as [flag value]. unfold append_flag.
  destruct (is_true_or_true_string value).
  - destruct (String.eqb flag "disable-gpu");
      (eexists; split; [reflexivity|]; repeat split).
  - eexists. split; [reflexivity|]. repeat split.
Qed.

Lemma forEach_append_flag_run (entries : list (string * json)) (st : State) :
  exists st',
    forEach append_flag entries st = (Ok tt, st') /\ same_but_trace st st'.
Proof.
  revert st. induction entries as [|e entries IH]; intros st; simpl.
  - exists st. split; [reflexivity | apply same_but_trace_refl].
  - destruct (append_flag_run e st) as (st1 & Hrun & Hsame).
    destruct (IH st1) as (st2 & Hrun2 & Hsame2).
    exists st2. unfold bind. rewrite Hrun. split; [exact Hrun2|].
    eapply same_but_trace_trans; eassumption.
Qed.

Lemma readFlagsConfig_run (w : World) (st : State) :
  exists st',
    readFlagsConfig w st = (Ok (flagsOnDisk w (files st)), st')
    /\ files st' = diskAfterLoad w (files st)
    /\ console st' = console st ++ loadLog w (files st)
    /\ env st' = env st
    /\ nlsConfigurationPromise st' = nlsConfigurationPromise st.
Proof.
  unfold readFlagsConfig, try_catch, bind, fs_readFileSync, flagsOnDisk,
    diskAfterLoad, loadLog, fs_writeFileSync, parse.
  simpl.
  destruct (files st !! flagsConfigPath w) as [[raw | f]|] eqn:Hfile.
  - destruct (JSON_parse w (stripComments raw)) as [v|]; simpl.
    + eexists. split; [reflexivity|]. simpl. rewrite app_nil_r. repeat split.
    + eexists. split; [reflexivity|]. repeat split.
  - assert (Hcode : bool_decide
              (error_code (SystemError (fault_code f)) = Some "ENOENT") = false).
    { destruct f; reflexivity. }
    rewrite Hcode. simpl. eexists. split; [reflexivity|]. repeat split.
  - simpl. destruct (fs_write_fault w (flagsConfigPath w)) as [e|]; simpl.
    + eexists. split; [reflexivity|]. repeat split.
    + eexists. split; [reflexivity|]. simpl. rewrite app_nil_r. repeat split.
Qed.

Lemma configureCommandlineSwitches_run (w : World)
    (cliArgs : gmap string argval) (st : State) :
  exists st',
    configureCommandlineSwitches w cliArgs st
      = (match own_entries (flagsOnDisk w (files st)) with
         | Ok _ => Ok (flagsOnDisk w (files st))
         | Throw e => Throw e
         end, st')
    /\ files st' = diskAfterLoad w (files st)
    /\ console st' = console st ++ loadLog w (files st)
    /\ env st' = env st
    /\ nlsConfigurationPromise st' = nlsConfigurationPromise st.
Proof.
  destruct (readFlagsConfig_run w st) as (st1 & Hrun & Hfiles & Hlog & He & Hp).
  unfold configureCommandlineSwitches, bind at 1. rewrite Hrun.
  unfold bind at 1, await.
  destruct (own_entries (flagsOnDisk w (files st))) as [entries|e].
  - destruct (forEach_append_flag_run entries st1)
      as (st2 & Hrun2 & Hf2 & He2 & Hp2 & Hc2).
    unfold bind at 1. rewrite Hrun2.
    assert (Hjs : exists st3,
              (match getJSFlags cliArgs with
               | Some jsFlags =>
                   if negb (String.eqb jsFlags "")
                   then modify (emit (EvAppendSwitch "js-flags" (JStr jsFlags)))
                   else ret tt
               | None => ret tt
               end) st2 = (Ok tt, st3) /\ same_but_trace st2 st3).
    { destruct (getJSFlags cliArgs) as [jsFlags|].
      - destruct (negb (String.eqb jsFlags ""));
          (eexists; split; [reflexivity|]; repeat split).
      - eexists; split; [reflexivity|]; repeat split. }
    destruct Hjs as (st3 & Hrun3 & Hf3 & He3 & Hp3 & Hc3).
    unfold bind. rewrite Hrun3. exists st3. split; [reflexivity|].
    repeat split; congruence.
  - exists st1. split; [reflexivity|]. repeat split; assumption.
Qed.

Lemma diskAfterLoad_idempotent (w : World) (disk : gmap string node) :
  diskAfterLoad w (diskAfterLoad w disk) = diskAfterLoad w disk.
Proof.
  unfold diskAfterLoad.
  destruct (disk !! flagsConfigPath w) eqn:Hfile.
  - rewrite Hfile. reflexivity.
  - destruct (fs_write_fault w (flagsConfigPath w)) eqn:Hfault.
    + rewrite Hfile. reflexivity.
    + rewrite lookup_insert_eq. reflexivity.
Qed.

Lemma flagsOnDisk_after_load (w : World) (disk : gmap string node) :
  JSON_parse w (stripComments defaultFlagsConfigRaw) = Some defaultFlagsConfig ->
  flagsOnDisk w (diskAfterLoad w disk) = flagsOnDisk w disk.
Proof.
  intros Hdefault. unfold flagsOnDisk, diskAfterLoad.
  destruct (disk !! flagsConfigPath w) eqn:Hfile.
  - rewrite Hfile. reflexivity.
  - destruct (fs_write_fault w (flagsConfigPath w)).
    + rewrite Hfile. reflexivity.
    + rewrite lookup_insert_eq, Hdefault. reflexivity.
Qed.

(** C9. The flags file is written only when it is absent: a load leaves
    the disk as it was or, when there was no flags file, with the default
    template at its path and nothing else changed.  A file that exists and
    cannot be read or parsed is left untouched, a warning is logged and the
    default configuration is used.  A second load yields the same
    configuration as the first and writes nothing. *)
Theorem flags_file_written_only_when_absent (w : World)
    (cliArgs : gmap string argval) (st : State) :
  JSON_parse w (stripComments defaultFlagsConfigRaw) = Some defaultFlagsConfig ->
  exists r1 st1 r2 st2,
    configureCommandlineSwitches w cliArgs st = (r1, st1)
    /\ configureCommandlineSwitches w cliArgs st1 = (r2, st2)
    /\ (files st1 = files st
        \/ (files st !! flagsConfigPath w = None
            /\ files st1
                 = <[flagsConfigPath w := File defaultFlagsConfigRaw]> (files st)))
    /\ (forall nd, files st !! flagsConfigPath w = Some nd ->
          files st1 = files st
          /\ ((forall raw, nd = File raw ->
                 JSON_parse w (stripComments raw) = None) ->
              r1 = Ok defaultFlagsConfig
              /\ exists e, console st1 = console st ++ [LogWarn e]))
    /\ r2 = r1
    /\ files st2 = files st1.
Proof.
  intros Hdefault.
  destruct (configureCommandlineSwitches_run w cliArgs st)
    as (st1 & Hrun1 & Hfiles1 & Hlog1 & _).
  destruct (configureCommandlineSwitches_run w cliArgs st1)
    as (st2 & Hrun2 & Hfiles2 & _).
  do 4 eexists. split; [exact Hrun1|]. split; [exact Hrun2|].
  split; [|split; [|split]].
  - rewrite Hfiles1. unfold diskAfterLoad.
    destruct (files st !! flagsConfigPath w); [left; reflexivity|].
    destruct (fs_write_fault w (flagsConfigPath w));
      [left; reflexivity | right; split; reflexivity].
  - intros nd Hnd. rewrite Hfiles1, Hlog1.
    unfold diskAfterLoad, loadLog, flagsOnDisk. rewrite Hnd.
    split; [reflexivity|]. intros Hbad.
    destruct nd as [raw | f].
    + rewrite (Hbad raw eq_refl). split; [reflexivity | eauto].
    + split; [reflexivity | eauto].
  - rewrite Hfiles1, flagsOnDisk_after_load by exact Hdefault. reflexivity.
  - rewrite Hfiles2, Hfiles1. apply diskAfterLoad_idempotent.
Qed.

(** Two loads on a disk without a flags file. *)
Lemma flags_file_written_only_when_absent_witness :
  let w := exampleWorld ∅ "en-US" frenchOnly in
  JSON_parse w (stripComments defaultFlagsConfigRaw) = Some defaultFlagsConfig
  /\ exists r st1 st2,
       configureCommandlineSwitches w ∅ (initialState ∅) = (r, st1)
       /\ configureCommandlineSwitches w ∅ st1 = (r, st2)
       /\ files st2 = files st1.
Proof.
  intros w.
  assert (Hdefault : JSON_parse w (stripComments defaultFlagsConfigRaw)
                     = Some defaultFlagsConfig) by (vm_compute; reflexivity).
  split; [exact Hdefault|].
  destruct (flags_file_written_only_when_absent w ∅ (initialState ∅) Hdefault)
    as (r1 & st1 & r2 & st2 & H1 & H2 & _ & _ & Hr & Hf).
  subst r2. exists r1, st1, st2. auto.
Defined.

(** First run: the template written to disk reads back as the default. *)
Lemma first_run_writes_default :
  let w := exampleWorld ∅ "en-US" frenchOnly in
  let st1 := snd (configureCommandlineSwitches w ∅ (initialState ∅)) in
  files st1 !! flagsConfigPath w = Some (File defaultFlagsConfigRaw)
  /\ flagsOnDisk w (files st1) = defaultFlagsConfig.
Proof. split; vm_compute; reflexivity. Qed.

(** A flags file that holds null is no failure of reading or parsing;
    the walk over its keys throws before the ready handler is installed. *)
Lemma null_flags_config_throws :
  let w := exampleWorld ∅ "en-US" frenchOnly in
  let run := main w (initialState {[flagsConfigPath w := File "null"]}) in
  fst run = Throw TypeError /\ bundle_loads (snd run) = 0.
Proof. intros w run. split; vm_compute; reflexivity. Qed.

(** ** The locale resolver *)

Lemma getUserDefinedLocale_file (w : World) (st : State) :
  truthy_arg (args w !! "locale") = false ->
  getUserDefinedLocale w st
    = (Ok (persistedLocale w (files st)), emit (EvReadFile (localeConfigPath w)) st).
Proof.
  intros Hcli.
  unfold getUserDefinedLocale, persistedLocale, try_catch, bind,
    bootstrap_readFile, fs_readFileSync, parse, locale_member.
  rewrite Hcli. simpl.
  destruct (files st !! localeConfigPath w) as [[raw | f]|]; try reflexivity.
  destruct (JSON_parse w (stripComments raw)) as [[]|]; reflexivity.
Qed.

Lemma getUserDefinedLocale_cli (w : World) (st : State) (v : string) :
  args w !! "locale" = Some (AString v) -> v <> "" ->
  getUserDefinedLocale w st = (Ok (Some (toLowerCase v)), st).
Proof.
  intros Hcli Hv. unfold getUserDefinedLocale. rewrite Hcli. simpl.
  apply String.eqb_neq in Hv. rewrite Hv. reflexivity.
Qed.

Lemma toLowerCase_nonempty (s : string) : s <> "" -> toLowerCase s <> "".
Proof. destruct s; [congruence | discriminate]. Qed.

Lemma step3_run (w : World) (st : State) :
  (appLocale <- getLocale w ;;
   if String.eqb appLocale ""
   then ret (fallbackNls "en")
   else
     let appLocale := toLowerCase appLocale in
     nlsConfiguration <- getNLSConfiguration w appLocale ;;
     match nlsConfiguration with
     | None => ret (fallbackNls appLocale)
     | Some c => ret c
     end)%js st
  = (step3_result w, emit_all (step3_events w) st).
Proof.
  unfold step3_result, step3_events, provider, bind, getLocale,
    getNLSConfiguration, modify, await, ret. simpl.
  destruct (String.eqb (app_getLocale w) ""); [reflexivity|]. simpl.
  destruct (lp_getNLSConfiguration w _ _ _ _) as [[c|]|e]; reflexivity.
Qed.

Lemma bind_run {A B} (c : M A) (f : A -> M B) (st st' : State) (a : A) :
  c st = (Ok a, st') -> bind c f st = f a st'.
Proof. intros H. unfold bind. rewrite H. reflexivity. Qed.

Lemma bind_throw {A B} (c : M A) (f : A -> M B) (st st' : State) (e : js_error) :
  c st = (Throw e, st') -> bind c f st = (Throw e, st').
Proof. intros H. unfold bind. rewrite H. reflexivity. Qed.

Lemma is_Some_Some_true {A} (x : A) : bool_decide (is_Some (Some x)) = true.
Proof. apply bool_decide_eq_true. eauto. Qed.

Lemma is_Some_None_false {A} : bool_decide (is_Some (@None A)) = false.
Proof. apply bool_decide_eq_false. intros [x Hx]. discriminate. Qed.

(** With the promise in place, a call awaits it and creates nothing. *)
Lemma resolveNlsConfiguration_memoized (w : World) (locale : option string)
    (p : outcome (option object)) (st : State) :
  nlsConfigurationPromise st = Some p ->
  resolveNlsConfiguration w locale st = after_promise w p st.
Proof.
  intros Hp.
  unfold resolveNlsConfiguration, after_promise.
  erewrite bind_run by reflexivity.
  rewrite Hp, is_Some_Some_true, andb_false_r. simpl negb. cbv iota.
  erewrite bind_run by reflexivity.
  erewrite bind_run by reflexivity.
  rewrite Hp. simpl default.
  destruct p as [[c|]|e].
  - erewrite bind_run by reflexivity. reflexivity.
  - erewrite bind_run by reflexivity. apply step3_run.
  - erewrite bind_throw by reflexivity. reflexivity.
Qed.

(** The first call creates the promise: from the provider when there is a
    user-defined locale, already resolved to nothing when there is none. *)
Lemma resolveNlsConfiguration_fresh (w : World) (locale : option string)
    (st : State) :
  nlsConfigurationPromise st = None ->
  resolveNlsConfiguration w locale st
  = if truthy_str locale
    then after_promise w (provider w (default "" locale))
           (set_nlsConfigurationPromise
              (Some (provider w (default "" locale)))
              (emit (EvGetNLS (default "" locale)) st))
    else after_promise w (Ok None)
           (set_nlsConfigurationPromise (Some (Ok None)) st).
Proof.
  intros Hp.
  unfold resolveNlsConfiguration, after_promise.
  erewrite bind_run by reflexivity.
  rewrite Hp, is_Some_None_false, andb_true_r. simpl negb.
  destruct (truthy_str locale).
  - erewrite bind_run by reflexivity.
    erewrite bind_run by reflexivity.
    simpl nlsConfigurationPromise. simpl default.
    fold (provider w (default "" locale)).
    destruct (provider w (default "" locale)) as [[c|]|e].
    + erewrite bind_run by reflexivity. reflexivity.
    + erewrite bind_run by reflexivity. apply step3_run.
    + erewrite bind_throw by reflexivity. reflexivity.
  - erewrite bind_run by reflexivity.
    erewrite bind_run by reflexivity.
    simpl nlsConfigurationPromise. simpl default.
    erewrite bind_run by reflexivity. apply step3_run.
Qed.

Lemma emit_all_trace (events : list event) (st : State) :
  trace (emit_all events st) = trace st ++ events.
Proof.
  revert st. induction events as [|e events IH]; intros st; simpl.
  - rewrite app_nil_r. reflexivity.
  - rewrite IH. simpl. rewrite <- app_assoc. reflexivity.
Qed.

Lemma emit_all_rest (events : list event) (st : State) :
  files (emit_all events st) = files st
  /\ env (emit_all events st) = env st
  /\ console (emit_all events st) = console st
  /\ nlsConfigurationPromise (emit_all events st) = nlsConfigurationPromise st.
Proof.
  revert st. induction events as [|e events IH]; intros st; simpl.
  - repeat split.
  - destruct (IH (emit e st)) as (H1 & H2 & H3 & H4). repeat split; assumption.
Qed.

(** Awaiting the promise touches the trace only. *)
Lemma after_promise_state (w : World) (p : outcome (option object))
    (st : State) :
  same_but_trace st (snd (after_promise w p st)).
Proof.
  unfold after_promise. destruct p as [[c|]|e]; try apply same_but_trace_refl.
  simpl. destruct (emit_all_rest (step3_events w) st) as (H1 & H2 & H3 & H4).
  repeat split; assumption.
Qed.

(** C5 as the script has it. Reading the persisted locale file never
    propagates an error: whatever the disk holds, the result is a value.  A
    locale member that is a non-empty string gives that string lower-cased;
    a read failure, malformed JSON, and every other shape of the parsed
    value or of its locale member - the empty string among them - give no
    locale. *)
Theorem persisted_locale_never_throws (w : World) (st : State) :
  truthy_arg (args w !! "locale") = false ->
  exists v : option string,
    getUserDefinedLocale w st
      = (Ok v, emit (EvReadFile (localeConfigPath w)) st)
    /\ (forall raw props s,
          files st !! localeConfigPath w = Some (File raw) ->
          JSON_parse w (stripComments raw) = Some (JObj props) ->
          get_prop "locale" props = Some (JStr s) -> s <> "" ->
          v = Some (toLowerCase s))
    /\ ((forall raw, files st !! localeConfigPath w <> Some (File raw)) ->
        v = None)
    /\ (forall raw,
          files st !! localeConfigPath w = Some (File raw) ->
          JSON_parse w (stripComments raw) = None -> v = None)
    /\ (forall raw parsed,
          files st !! localeConfigPath w = Some (File raw) ->
          JSON_parse w (stripComments raw) = Some parsed ->
          (forall props s, parsed = JObj props ->
             get_prop "locale" props = Some (JStr s) -> s = "") ->
          v = None).
Proof.
  intros Hcli. exists (persistedLocale w (files st)).
  split; [apply getUserDefinedLocale_file, Hcli|].
  unfold persistedLocale.
  split; [|split; [|split]].
  - intros raw props s -> -> -> Hs. apply String.eqb_neq in Hs. rewrite Hs.
    reflexivity.
  - intros Hno. destruct (files st !! localeConfigPath w) as [[raw|f]|];
      try reflexivity.
    contradiction (Hno raw). reflexivity.
  - intros raw -> ->. reflexivity.
  - intros raw parsed -> -> Hshape.
    destruct parsed as [| | | | |props]; try reflexivity.
    destruct (get_prop "locale" props) as [[| | |s| |]|] eqn:Hget;
      try reflexivity.
    rewrite (Hshape props s eq_refl Hget). reflexivity.
Qed.

(** A locale file with a comment and the locale DE. *)
Lemma persisted_locale_never_throws_witness :
  let w := exampleWorld ∅ "en-US" frenchOnly in
  let st := initialState {[localeConfigPath w := File germanLocaleJson]} in
  truthy_arg (args w !! "locale") = false
  /\ fst (getUserDefinedLocale w st) = Ok (Some "de").
Proof.
  intros w st.
  assert (Hcli : truthy_arg (args w !! "locale") = false) by reflexivity.
  split; [exact Hcli|].
  destruct (persisted_locale_never_throws w st Hcli) as (v & Hrun & Hstr & _).
  rewrite Hrun. simpl. f_equal.
  apply (Hstr germanLocaleJson [("locale", JStr "DE")] "DE");
    [vm_compute; reflexivity | vm_compute; reflexivity | reflexivity
    | discriminate].
Defined.

(** C5 as stated fails for a locale member that is the empty string: it is
    a string, and the result is no locale rather than that string. *)
Lemma empty_persisted_locale_is_dropped :
  let w := exampleWorld ∅ "en-US" frenchOnly in
  let st := initialState {[localeConfigPath w := File emptyLocaleJson]} in
  JSON_parse w (stripComments emptyLocaleJson)
    = Some (JObj [("locale", JStr "")])
  /\ fst (getUserDefinedLocale w st) = Ok None
  /\ fst (getUserDefinedLocale w st) <> Ok (Some (toLowerCase "")).
Proof.
  intros w st. split; [vm_compute; reflexivity|].
  assert (H : fst (getUserDefinedLocale w st) = Ok None)
    by (vm_compute; reflexivity).
  split; [exact H | rewrite H; discriminate].
Qed.

Lemma onUserDefinedLocale_fresh (w : World) (locale : option string)
    (st : State) :
  nlsConfigurationPromise st = None ->
  onUserDefinedLocale w (Ok locale) st
  = (Ok tt,
     if truthy_str locale
     then set_nlsConfigurationPromise (Some (provider w (default "" locale)))
            (emit (EvGetNLS (default "" locale)) st)
     else st).
Proof.
  intros Hp. unfold onUserDefinedLocale.
  erewrite bind_run by reflexivity.
  rewrite Hp, is_Some_None_false, andb_true_r. simpl negb.
  destruct (truthy_str locale); reflexivity.
Qed.

(** C4 as the script has it.  A non-empty locale on the command line is
    the user-defined locale, lower-cased, and the persisted file is not
    read; when the provider has a configuration for it, that configuration
    is the result and the platform locale is not asked for.  Without a
    locale on the command line and without a usable persisted file, the
    provider is asked for the platform's locale, lower-cased, and without an
    answer from it the configuration is built for that locale; a platform
    that reports no locale gives the configuration for en. *)
Theorem locale_chain_first_success (w : World) (st : State) :
  nlsConfigurationPromise st = None ->
  (forall v, args w !! "locale" = Some (AString v) -> v <> "" ->
     getUserDefinedLocale w st = (Ok (Some (toLowerCase v)), st)
     /\ forall cfg, provider w (toLowerCase v) = Ok (Some cfg) ->
          exists st',
            resolveLocale w st = (Ok cfg, st')
            /\ trace st' = trace st ++ [EvGetNLS (toLowerCase v)])
  /\ (truthy_arg (args w !! "locale") = false ->
      persistedLocale w (files st) = None ->
      (app_getLocale w <> "" ->
       forall answer,
         provider w (toLowerCase (app_getLocale w)) = Ok answer ->
         exists st',
           resolveLocale w st
             = (Ok (default (fallbackNls (toLowerCase (app_getLocale w)))
                            answer), st')
           /\ trace st'
                = trace st ++ [EvReadFile (localeConfigPath w); EvGetLocale;
                               EvGetNLS (toLowerCase (app_getLocale w))])
      /\ (app_getLocale w = "" ->
          exists st',
            resolveLocale w st = (Ok (fallbackNls "en"), st')
            /\ trace st'
                 = trace st ++ [EvReadFile (localeConfigPath w); EvGetLocale])).
Proof.
  intros Hp. split.
  - intros v Hcli Hv.
    pose proof (getUserDefinedLocale_cli w st v Hcli Hv) as Hudl.
    split; [exact Hudl|]. intros cfg Hcfg.
    unfold resolveLocale.
    erewrite bind_run by (unfold promise_of; rewrite Hudl; reflexivity).
    erewrite bind_run by (apply onUserDefinedLocale_fresh, Hp).
    assert (Ht : truthy_str (Some (toLowerCase v)) = true).
    { simpl. apply negb_true_iff, String.eqb_neq, toLowerCase_nonempty, Hv. }
    rewrite Ht. simpl default.
    erewrite bind_run by reflexivity.
    erewrite resolveNlsConfiguration_memoized by reflexivity.
    rewrite Hcfg. simpl. eexists. split; reflexivity.
  - intros Hcli Hfile.
    pose proof (getUserDefinedLocale_file w st Hcli) as Hudl.
    rewrite Hfile in Hudl.
    assert (Hchain : resolveLocale w st
              = after_promise w (Ok None)
                  (set_nlsConfigurationPromise (Some (Ok None))
                     (emit (EvReadFile (localeConfigPath w)) st))).
    { unfold resolveLocale.
      erewrite bind_run by (unfold promise_of; rewrite Hudl; reflexivity).
      erewrite bind_run by (apply onUserDefinedLocale_fresh; exact Hp).
      simpl truthy_str. cbv iota.
      erewrite bind_run by reflexivity.
      rewrite resolveNlsConfiguration_fresh by exact Hp.
      reflexivity. }
    rewrite Hchain. unfold after_promise, step3_result, step3_events.
    split.
    + intros Happ answer Hanswer.
      apply String.eqb_neq in Happ. rewrite Happ, Hanswer.
      eexists. split.
      * destruct answer; reflexivity.
      * rewrite emit_all_trace. simpl. rewrite <- app_assoc. reflexivity.
    + intros Happ. rewrite Happ. simpl String.eqb. cbv iota.
      eexists. split; [reflexivity|].
      rewrite emit_all_trace. simpl. rewrite <- app_assoc. reflexivity.
Qed.

(** The chain with FR on the command line, and with nothing but the
    platform locale DE-AT. *)
Lemma locale_chain_first_success_witness :
  let w := exampleWorld {["locale" := AString "FR"]} "DE-AT" frenchOnly in
  let w' := exampleWorld ∅ "DE-AT" frenchOnly in
  let st := initialState ∅ in
  nlsConfigurationPromise st = None
  /\ (exists st', resolveLocale w st = (Ok (languagePack "fr"), st')
                  /\ trace st' = [EvGetNLS "fr"])
  /\ (exists st', resolveLocale w' st = (Ok (fallbackNls "de-at"), st')
                  /\ trace st' = [EvReadFile (localeConfigPath w'); EvGetLocale;
                                  EvGetNLS "de-at"]).
Proof.
  intros w w' st. split; [reflexivity|]. split.
  - destruct (locale_chain_first_success w st eq_refl) as [Hcli _].
    destruct (Hcli "FR") as [_ Hcfg]; [reflexivity | discriminate|].
    apply (Hcfg (languagePack "fr")). reflexivity.
  - destruct (locale_chain_first_success w' st eq_refl) as [_ Hplatform].
    destruct Hplatform as [Hsome _]; [reflexivity | reflexivity|].
    apply (Hsome ltac:(discriminate) None). reflexivity.
Defined.

(** C4 as stated fails when the provider has no configuration for the
    locale of the command line: the platform locale is consulted and the
    configuration is the one for it. *)
Lemma cli_locale_without_pack_falls_through :
  let w := exampleWorld {["locale" := AString "FR"]} "DE-AT" (packsFor []) in
  let run := resolveLocale w (initialState ∅) in
  fst run = Ok (fallbackNls "de-at")
  /\ trace (snd run) = [EvGetNLS "fr"; EvGetLocale; EvGetNLS "de-at"]
  /\ In EvGetLocale (trace (snd run)).
Proof.
  intros w run.
  assert (Ht : trace (snd run) = [EvGetNLS "fr"; EvGetLocale; EvGetNLS "de-at"])
    by (vm_compute; reflexivity).
  split; [vm_compute; reflexivity|]. split; [exact Ht|].
  rewrite Ht. simpl. auto.
Qed.

(** ** Memoization of the NLS configuration *)

Lemma resolveNlsConfiguration_sets_promise (w : World)
    (locale : option string) (st : State) :
  exists p,
    nlsConfigurationPromise (snd (resolveNlsConfiguration w locale st)) = Some p
    /\ fst (resolveNlsConfiguration w locale st)
         = fst (after_promise w p (snd (resolveNlsConfiguration w locale st)))
    /\ (forall p0, nlsConfigurationPromise st = Some p0 -> p = p0).
Proof.
  assert (Hafter : forall p st0,
            nlsConfigurationPromise st0 = Some p ->
            nlsConfigurationPromise (snd (after_promise w p st0)) = Some p
            /\ fst (after_promise w p st0)
                 = fst (after_promise w p (snd (after_promise w p st0)))).
  { intros p st0 Hp0.
    destruct (after_promise_state w p st0) as (_ & _ & Hp1 & _).
    split; [congruence|]. destruct p as [[c|]|e]; reflexivity. }
  destruct (nlsConfigurationPromise st) as [p0|] eqn:Hp.
  - rewrite (resolveNlsConfiguration_memoized w locale p0 st Hp).
    destruct (Hafter p0 st Hp) as [H1 H2].
    exists p0. split; [exact H1|]. split; [exact H2|]. congruence.
  - rewrite (resolveNlsConfiguration_fresh w locale st Hp).
    destruct (truthy_str locale).
    + destruct (Hafter (provider w (default "" locale))
                  (set_nlsConfigurationPromise
                     (Some (provider w (default "" locale)))
                     (emit (EvGetNLS (default "" locale)) st)) eq_refl)
        as [H1 H2].
      eexists. split; [exact H1|]. split; [exact H2|]. discriminate.
    + destruct (Hafter (Ok None)
                  (set_nlsConfigurationPromise (Some (Ok None)) st) eq_refl)
        as [H1 H2].
      eexists. split; [exact H1|]. split; [exact H2|]. discriminate.
Qed.

(** C2 as the script has it.  The promise for the user-defined locale is
    what is memoized: a call leaves it in place, a later call creates no
    new one and gives the same result.  A configuration that the promise
    holds is returned again without any query.  When the promise holds
    nothing, the configuration of step 3 is not kept: every call asks the
    platform for its locale and the provider for a configuration again. *)
Theorem nls_promise_memoized (w : World) (locale locale' : option string)
    (st st1 : State) (r : outcome object) :
  resolveNlsConfiguration w locale st = (r, st1) ->
  exists p st2,
    nlsConfigurationPromise st1 = Some p
    /\ resolveNlsConfiguration w locale' st1 = (r, st2)
    /\ nlsConfigurationPromise st2 = Some p
    /\ (forall c, p = Ok (Some c) -> r = Ok c /\ trace st2 = trace st1)
    /\ (p = Ok None -> trace st2 = trace st1 ++ step3_events w).
Proof.
  intros Hrun.
  destruct (resolveNlsConfiguration_sets_promise w locale st)
    as (p & Hp & Hr & _).
  rewrite Hrun in Hp, Hr. simpl in Hp, Hr.
  exists p, (snd (after_promise w p st1)).
  split; [exact Hp|].
  rewrite (resolveNlsConfiguration_memoized w locale' p st1 Hp).
  split; [rewrite Hr; apply surjective_pairing|].
  destruct (after_promise_state w p st1) as (_ & _ & Hp2 & _).
  split; [congruence|]. split.
  - intros c ->. simpl in Hr. split; [exact Hr | reflexivity].
  - intros ->. unfold after_promise. cbn [snd]. apply emit_all_trace.
Qed.

(** A configuration found for the locale of the command line is handed out
    again without a query. *)
Lemma nls_promise_memoized_witness :
  let w := exampleWorld {["locale" := AString "FR"]} "DE-AT" frenchOnly in
  exists st1 st2,
    resolveNlsConfiguration w (Some "fr") (initialState ∅)
      = (Ok (languagePack "fr"), st1)
    /\ resolveNlsConfiguration w (Some "fr") st1 = (Ok (languagePack "fr"), st2)
    /\ trace st2 = trace st1.
Proof.
  intros w.
  destruct (nls_promise_memoized w (Some "fr") (Some "fr") (initialState ∅)
              (snd (resolveNlsConfiguration w (Some "fr") (initialState ∅)))
              (Ok (languagePack "fr")))
    as (p & st2 & Hp & Hrun & _ & Hcached & _).
  - vm_compute. reflexivity.
  - exists (snd (resolveNlsConfiguration w (Some "fr") (initialState ∅))), st2.
    split; [vm_compute; reflexivity|]. split; [exact Hrun|].
    apply (Hcached (languagePack "fr")).
    assert (Hc : nlsConfigurationPromise
                   (snd (resolveNlsConfiguration w (Some "fr") (initialState ∅)))
                 = Some (Ok (Some (languagePack "fr"))))
      by (vm_compute; reflexivity).
    rewrite Hc in Hp. injection Hp as <-. reflexivity.
Defined.

(** C2 as stated fails: with no user-defined locale the configuration for
    the platform locale is not memoized, and the second call queries the
    platform and the provider once more. *)
Lemma step3_is_queried_again :
  let w := exampleWorld ∅ "DE-AT" (packsFor ["de-at"]) in
  let first := resolveNlsConfiguration w None (initialState ∅) in
  let second := resolveNlsConfiguration w None (snd first) in
  fst first = Ok (languagePack "de-at")
  /\ nlsConfigurationPromise (snd first) = Some (Ok None)
  /\ trace (snd first) = [EvGetLocale; EvGetNLS "de-at"]
  /\ fst second = Ok (languagePack "de-at")
  /\ trace (snd second)
       = [EvGetLocale; EvGetNLS "de-at"; EvGetLocale; EvGetNLS "de-at"].
Proof. intros w first second. repeat split; vm_compute; reflexivity. Qed.

(** ** The startup sequencer *)

Lemma ensureExists_run (w : World) (value : option string) (st : State) :
  ensureExists w value st
  = (Ok (match bootstrap_mkdirp w value with
         | Some _ => None
         | None => value
         end), emit (EvMkdirp value) st).
Proof.
  unfold ensureExists, try_catch.
  erewrite bind_run by reflexivity.
  destruct (bootstrap_mkdirp w value); reflexivity.
Qed.

Lemma bundle_loads_emit (e : event) (st : State) :
  bundle_loads (emit e st) = bundle_loads st + (if is_load e then 1 else 0).
Proof.
  unfold bundle_loads. simpl. rewrite List.filter_app, List.length_app. simpl.
  destruct (is_load e); reflexivity.
Qed.




Lemma bundle_loads_log (l : log_line) (st : State) :
  bundle_loads (log l st) = bundle_loads st.
Proof. reflexivity. Qed.

(** The ready handler, step by step. *)
Lemma onReady_run (w : World) (nodeCachedDataDir : option string)
    (userDefinedLocale : outcome (option string)) (st : State) :
  let st0 := emit (EvMkdirp nodeCachedDataDir) st in
  let cachedDataDir := match bootstrap_mkdirp w nodeCachedDataDir with
                       | Some _ => None
                       | None => nodeCachedDataDir
                       end in
  onReady w nodeCachedDataDir userDefinedLocale st
  = match userDefinedLocale with
    | Throw e => (Ok tt, log (LogError e) st0)
    | Ok locale =>
        match resolveNlsConfiguration w locale st0 with
        | (Ok cfg, st1) => startup w cachedDataDir cfg st1
        | (Throw e, st1) => (Ok tt, log (LogError e) st1)
        end
    end.
Proof.
  intros st0 cachedDataDir. unfold onReady, try_catch.
  erewrite bind_run by apply ensureExists_run. fold st0 cachedDataDir.
  destruct userDefinedLocale as [locale | e].
  - erewrite bind_run by reflexivity.
    destruct (resolveNlsConfiguration w locale st0) as [[cfg | e] st1] eqn:Hres.
    + erewrite bind_run by exact Hres.
      destruct (startup_run w cachedDataDir cfg st1) as (st2 & Hrun & _).
      rewrite Hrun. reflexivity.
    + erewrite bind_throw by exact Hres. reflexivity.
  - erewrite bind_throw by reflexivity. reflexivity.
Qed.




(** With a provider that answers, the same run loads the bundle once. *)
Lemma answering_provider_starts_once :
  let w := exampleWorld ∅ "DE-AT" frenchOnly in
  bundle_loads (snd (main w (initialState ∅))) = 1.
Proof. vm_compute. reflexivity. Qed.

(** ** The comment stripper *)

(** *** Strings *)

Lemma append_String (c : ascii) (s t : string) :
  String c s +:+ t = String c (s +:+ t).
Proof. reflexivity. Qed.

Lemma append_empty_l (s : string) : "" +:+ s = s.
Proof. reflexivity. Qed.

Lemma append_empty_r (s : string) : s +:+ "" = s.
Proof. induction s as [|c s IH]; [reflexivity|]. rewrite append_String, IH. reflexivity. Qed.

Lemma append_assoc (s t u : string) : (s +:+ t) +:+ u = s +:+ (t +:+ u).
Proof.
  induction s as [|c s IH]; [reflexivity|].
  rewrite !append_String, IH. reflexivity.
Qed.

Lemma length_append (s t : string) :
  String.length (s +:+ t) = String.length s + String.length t.
Proof.
  induction s as [|c s IH]; [reflexivity|].
  rewrite append_String. simpl. rewrite IH. reflexivity.
Qed.

Lemma length_zero (s : string) : String.length s = 0 -> s = "".
Proof. destruct s; [reflexivity | discriminate]. Qed.

(** *** The matcher *)

(** A continuation is only ever asked about texts that are not longer than
    the one the matcher started on. *)
Lemma m_ext (r : regex) (s : string) (k1 k2 : cont) :
  (forall s', String.length s' <= String.length s -> k1 s' = k2 s') ->
  m r s k1 = m r s k2.
Proof.
  revert s k1 k2.
  induction r as [ | p | | r1 IH1 r2 IH2 | r1 IH1 r2 IH2 | g r IH];
    intros s k1 k2 Hk; simpl.
  - apply Hk. lia.
  - destruct s as [|c s']; [reflexivity|].
    destruct (p c); [|reflexivity]. apply Hk. simpl. lia.
  - destruct s; [|reflexivity]. apply Hk. lia.
  - apply IH1. intros s' Hs'. apply IH2. intros s'' Hs''. apply Hk. lia.
  - rewrite (IH1 s k1 k2 Hk), (IH2 s k1 k2 Hk). reflexivity.
  - generalize (String.length s). intros fuel.
    revert s Hk. induction fuel as [|fuel IHf]; intros s Hk; simpl.
    + apply Hk. lia.
    + assert (Hagain :
        m r s (fun s' => if String.length s' <? String.length s
                         then star_loop (m r) g k1 fuel s' else None)
        = m r s (fun s' => if String.length s' <? String.length s
                         then star_loop (m r) g k2 fuel s' else None)).
      { apply IH. intros s' Hs'.
        destruct (String.length s' <? String.length s) eqn:E; [|reflexivity].
        apply IHf. intros s'' Hs''. apply Hk. lia. }
      rewrite Hagain, (Hk s) by lia. reflexivity.
Qed.

(** A continuation that always fails makes the match fail. *)
Lemma m_none (r : regex) (s : string) : m r s (fun _ => None) = None.
Proof.
  revert s.
  induction r as [ | p | | r1 IH1 r2 IH2 | r1 IH1 r2 IH2 | g r IH];
    intros s; simpl.
  - reflexivity.
  - destruct s as [|c s']; [reflexivity|]. destruct (p c); reflexivity.
  - destruct s; reflexivity.
  - rewrite (m_ext r1 s _ (fun _ => None)); [apply IH1|].
    intros s' _. apply IH2.
  - rewrite IH1, IH2. reflexivity.
  - generalize (String.length s). intros fuel. revert s.
    induction fuel as [|fuel IHf]; intros s; simpl; [reflexivity|].
    rewrite (m_ext r s _ (fun _ => None)).
    + rewrite IH. destruct g; reflexivity.
    + intros s' _. destruct (String.length s' <? String.length s);
        [apply IHf | reflexivity].
Qed.

(** The length of the text is fuel enough for the rounds of a star. *)
Lemma star_loop_fuel (r : regex) (g : greed) (k : cont) (fuel : nat)
    (s : string) :
  String.length s <= fuel ->
  star_loop (m r) g k fuel s = star_loop (m r) g k (String.length s) s.
Proof.
  assert (H : forall f1 f2 s, String.length s <= f1 -> String.length s <= f2 ->
            star_loop (m r) g k f1 s = star_loop (m r) g k f2 s).
  { induction f1 as [|f1 IHf]; intros f2 s0 H1 H2.
    - assert (s0 = "") as -> by (apply length_zero; lia).
      destruct f2 as [|f2]; [reflexivity|]. simpl.
      rewrite m_none. destruct g; [reflexivity|]. destruct (k ""); reflexivity.
    - destruct f2 as [|f2].
      + assert (s0 = "") as -> by (apply length_zero; lia). simpl.
        rewrite m_none. destruct g; [reflexivity|]. destruct (k ""); reflexivity.
      + simpl.
        rewrite (m_ext r s0
                   (fun s' => if String.length s' <? String.length s0
                              then star_loop (m r) g k f1 s' else None)
                   (fun s' => if String.length s' <? String.length s0
                              then star_loop (m r) g k f2 s' else None)).
        * reflexivity.
        * intros s' _.
          destruct (String.length s' <? String.length s0) eqn:E; [|reflexivity].
          apply Nat.ltb_lt in E. apply IHf; lia. }
  intros Hfuel. apply H; lia.
Qed.

(** One round of a greedy star: one more round of the atom first. *)
Lemma m_star_greedy (r : regex) (s : string) (k : cont) :
  m (Star Greedy r) s k
  = match m r s (fun s' => if String.length s' <? String.length s
                           then m (Star Greedy r) s' k else None) with
    | Some x => Some x
    | None => k s
    end.
Proof.
  simpl. destruct (String.length s) as [|n] eqn:Hlen.
  - simpl. rewrite m_none. reflexivity.
  - simpl. rewrite Hlen.
    rewrite (m_ext r s
               (fun s' => if String.length s' <? S n
                          then star_loop (m r) Greedy k n s' else None)
               (fun s' => if String.length s' <? S n
                          then star_loop (m r) Greedy k (String.length s') s'
                          else None)).
    + reflexivity.
    + intros s' _. destruct (String.length s' <? S n) eqn:E; [|reflexivity].
      apply Nat.ltb_lt in E. apply star_loop_fuel. lia.
Qed.

(** One round of a lazy star: the continuation first. *)
Lemma m_star_lazy (r : regex) (s : string) (k : cont) :
  m (Star Lazy r) s k
  = match k s with
    | Some x => Some x
    | None => m r s (fun s' => if String.length s' <? String.length s
                               then m (Star Lazy r) s' k else None)
    end.
Proof.
  simpl. destruct (String.length s) as [|n] eqn:Hlen.
  - simpl. rewrite m_none. destruct (k s); reflexivity.
  - simpl. rewrite Hlen.
    rewrite (m_ext r s
               (fun s' => if String.length s' <? S n
                          then star_loop (m r) Lazy k n s' else None)
               (fun s' => if String.length s' <? S n
                          then star_loop (m r) Lazy k (String.length s') s'
                          else None)).
    + reflexivity.
    + intros s' _. destruct (String.length s' <? S n) eqn:E; [|reflexivity].
      apply Nat.ltb_lt in E. apply star_loop_fuel. lia.
Qed.

(** *** The replace loop *)

Lemma replace_from_fuel (groups : list regex)
    (replacer : nat -> string -> string) (fuel : nat) (s : string) :
  String.length s < fuel ->
  replace_from fuel groups replacer s
  = replace_from (S (String.length s)) groups replacer s.
Proof.
  assert (H : forall f1 f2 s0,
            String.length s0 < f1 -> String.length s0 < f2 ->
            replace_from f1 groups replacer s0
            = replace_from f2 groups replacer s0).
  { induction f1 as [|f1 IHf]; intros f2 s0 H1 H2; [lia|].
    destruct f2 as [|f2]; [lia|]. simpl.
    assert (Htail : match s0 with
                    | "" => ""
                    | String c s' => String c (replace_from f1 groups replacer s')
                    end
                    = match s0 with
                      | "" => ""
                      | String c s' =>
                          String c (replace_from f2 groups replacer s')
                      end).
    { destruct s0 as [|c s']; [reflexivity|]. simpl in H1, H2.
      rewrite (IHf f2 s') by lia. reflexivity. }
    destruct (exec_groups 1 groups s0) as [[[i matched] rest]|];
      [|exact Htail].
    destruct (String.length rest <? String.length s0) eqn:E.
    - apply Nat.ltb_lt in E. rewrite (IHf f2 rest) by lia. reflexivity.
    - rewrite Htail. reflexivity. }
  intros Hfuel. apply H; lia.
Qed.

(** One step of the scan. *)
Lemma replace_step (groups : list regex) (replacer : nat -> string -> string)
    (s : string) :
  replace groups replacer s
  = match exec_groups 1 groups s with
    | Some (i, matched, rest) =>
        replacer i matched +:+
          (if String.length rest <? String.length s
           then replace groups replacer rest
           else match s with
                | "" => ""
                | String c s' => String c (replace groups replacer s')
                end)
    | None =>
        match s with
        | "" => ""
        | String c s' => String c (replace groups replacer s')
        end
    end.
Proof.
  unfold replace. simpl replace_from.
  assert (Htail : match s with
                  | "" => ""
                  | String c s' =>
                      String c (replace_from (String.length s) groups replacer s')
                  end
                  = match s with
                    | "" => ""
                    | String c s' =>
                        String c (replace_from (S (String.length s')) groups
                                    replacer s')
                    end).
  { destruct s as [|c s']; reflexivity. }
  destruct (exec_groups 1 groups s) as [[[i matched] rest]|]; [|exact Htail].
  destruct (String.length rest <? String.length s) eqn:E.
  - apply Nat.ltb_lt in E. rewrite (replace_from_fuel _ _ _ rest) by lia.
    reflexivity.
  - rewrite Htail. reflexivity.
Qed.

Lemma stripComments_step (s : string) :
  stripComments s
  = match exec_groups 1 regexp s with
    | Some (i, matched, rest) =>
        replacer i matched +:+
          (if String.length rest <? String.length s
           then stripComments rest
           else match s with
                | "" => ""
                | String c s' => String c (stripComments s')
                end)
    | None =>
        match s with
        | "" => ""
        | String c s' => String c (stripComments s')
        end
    end.
Proof. apply replace_step. Qed.

(** Where no group matches, one character is copied. *)
Lemma stripComments_copy (c : ascii) (s : string) :
  exec_groups 1 regexp (String c s) = None ->
  stripComments (String c s) = String c (stripComments s).
Proof. intros H. rewrite stripComments_step, H. reflexivity. Qed.

(** Where a group matches, its replacement is emitted and the scan goes on
    behind the match. *)
Lemma stripComments_match (s rest matched : string) (i : nat) :
  exec_groups 1 regexp s = Some (i, matched, rest) ->
  String.length rest < String.length s ->
  stripComments s = replacer i matched +:+ stripComments rest.
Proof.
  intros H Hlen. rewrite stripComments_step, H.
  apply Nat.ltb_lt in Hlen. rewrite Hlen. reflexivity.
Qed.

Lemma substring_prefix (a b : string) :
  substring 0 (String.length a) (a +:+ b) = a.
Proof.
  induction a as [|c a IH].
  - simpl. destruct b; reflexivity.
  - rewrite append_String. simpl. rewrite IH. reflexivity.
Qed.

Lemma consumed_prefix (a b : string) : consumed (a +:+ b) b = a.
Proof.
  unfold consumed. rewrite length_append.
  replace (String.length a + String.length b - String.length b)
    with (String.length a) by lia.
  apply substring_prefix.
Qed.

(** *** Characters of a text *)

Lemma get_append_r (a b : string) (i : nat) :
  String.get (String.length a + i) (a +:+ b) = String.get i b.
Proof. induction a as [|c a IH]; [reflexivity|]. simpl. exact IH. Qed.

Lemma get_append_l (a b : string) (i : nat) :
  i < String.length a -> String.get i (a +:+ b) = String.get i a.
Proof.
  revert i. induction a as [|c a IH]; intros i Hi; simpl in Hi; [lia|].
  rewrite append_String. destruct i as [|i]; [reflexivity|]. simpl.
  apply IH. lia.
Qed.

Lemma get_all_chars (p : ascii -> bool) (s : string) (i : nat) (c : ascii) :
  all_chars p s = true -> String.get i s = Some c -> p c = true.
Proof.
  revert i. induction s as [|c0 s IH]; intros i Hall Hget; [discriminate|].
  simpl in Hall. apply andb_true_iff in Hall as [Hc Hs].
  destruct i as [|i]; simpl in Hget.
  - injection Hget as <-. exact Hc.
  - eapply IH; eassumption.
Qed.

Lemma all_chars_append (p : ascii -> bool) (a b : string) :
  all_chars p (a +:+ b) = all_chars p a && all_chars p b.
Proof.
  induction a as [|c a IH]; [reflexivity|].
  rewrite append_String. simpl. rewrite IH, andb_assoc. reflexivity.
Qed.

(** *** Equations of the matcher *)

Lemma m_seq (r1 r2 : regex) (s : string) (k : cont) :
  m (Seq r1 r2) s k = m r1 s (fun s' => m r2 s' k).
Proof. reflexivity. Qed.

Lemma m_alt (r1 r2 : regex) (s : string) (k : cont) :
  m (Alt r1 r2) s k
  = match m r1 s k with Some x => Some x | None => m r2 s k end.
Proof. reflexivity. Qed.

Lemma m_set (p : ascii -> bool) (c : ascii) (s : string) (k : cont) :
  m (Set_ p) (String c s) k = if p c then k s else None.
Proof. reflexivity. Qed.

Lemma m_chr (c c' : ascii) (s : string) (k : cont) :
  m (chr c) (String c' s) k = if Ascii.eqb c c' then k s else None.
Proof. reflexivity. Qed.

Lemma m_dot (c : ascii) (s : string) (k : cont) :
  m dot (String c s) k = if is_line_terminator c then None else k s.
Proof. unfold dot. rewrite m_set. destruct (is_line_terminator c); reflexivity. Qed.

Lemma m_opt (r : regex) (s : string) (k : cont) :
  m (opt r) s k = match m r s k with Some x => Some x | None => k s end.
Proof. reflexivity. Qed.

Lemma not_line_terminator_chars (c : ascii) :
  is_line_terminator c = false ->
  Ascii.eqb CR c = false /\ Ascii.eqb LF c = false.
Proof.
  unfold is_line_terminator. intros H. apply orb_false_iff in H as [H1 H2].
  rewrite (Ascii.eqb_sym CR c), (Ascii.eqb_sym LF c). auto.
Qed.

Lemma m_newline_char (c : ascii) (s : string) (k : cont) :
  is_line_terminator c = false -> m newline (String c s) k = None.
Proof.
  intros Hc. apply not_line_terminator_chars in Hc as [Hcr Hlf].
  unfold newline. rewrite m_seq, m_opt, !m_chr, Hcr, Hlf. reflexivity.
Qed.

Lemma m_eol_char (c : ascii) (s : string) (k : cont) :
  is_line_terminator c = false -> m eol (String c s) k = None.
Proof.
  intros Hc. unfold eol. rewrite m_alt, m_newline_char by exact Hc.
  reflexivity.
Qed.

Lemma m_eol_lf (s : string) : m eol (String LF s) Some = Some s.
Proof. reflexivity. Qed.

Lemma m_eol_crlf (s : string) : m eol (String CR (String LF s)) Some = Some s.
Proof. reflexivity. Qed.

Lemma m_eol_end : m eol "" Some = Some "".
Proof. reflexivity. Qed.

(** *** Line comments *)

(** The lazy run of [.] stops at the first end of line. *)
Lemma m_lazy_dots (body tail : string) (x : string) :
  all_chars not_line_terminator body = true ->
  m eol tail Some = Some x ->
  m (Star Lazy dot) (body +:+ tail) (fun s => m eol s Some) = Some x.
Proof.
  intros Hbody Htail. induction body as [|c body IH].
  - rewrite append_empty_l, m_star_lazy, Htail. reflexivity.
  - simpl in Hbody. apply andb_true_iff in Hbody as [Hc Hbody].
    apply negb_true_iff in Hc.
    rewrite append_String, m_star_lazy, m_eol_char by exact Hc.
    rewrite m_dot, Hc.
    assert (Hlen : (String.length (body +:+ tail)
                    <? String.length (String c (body +:+ tail))) = true).
    { apply Nat.ltb_lt. simpl. lia. }
    rewrite Hlen. apply IH, Hbody.
Qed.

(** Behind the two slashes: further slashes, greedily, then the rest of the
    line. *)
Lemma m_slashes_then_dots (body tail : string) (x : string) :
  all_chars not_line_terminator body = true ->
  m eol tail Some = Some x ->
  m (Star Greedy (chr slash)) (body +:+ tail)
    (fun s1 => m (Star Lazy dot) s1 (fun s => m eol s Some)) = Some x.
Proof.
  intros Hbody Htail. induction body as [|c body IH].
  - rewrite append_empty_l, m_star_greedy.
    assert (Hno : m (chr slash) tail
              (fun s' => if String.length s' <? String.length tail
                         then m (Star Greedy (chr slash)) s'
                                (fun s1 => m (Star Lazy dot) s1
                                             (fun s => m eol s Some))
                         else None) = None).
    { destruct tail as [|c tail]; [reflexivity|].
      rewrite m_chr. destruct (Ascii.eqb_spec slash c) as [<-|Hne];
        [|reflexivity].
      rewrite m_eol_char in Htail by reflexivity. discriminate. }
    rewrite Hno. apply (m_lazy_dots "" tail x); [reflexivity | exact Htail].
  - pose proof Hbody as Hall.
    simpl in Hbody. apply andb_true_iff in Hbody as [Hc Hbody].
    rewrite append_String, m_star_greedy, m_chr.
    destruct (Ascii.eqb slash c).
    + assert (Hlen : (String.length (body +:+ tail)
                      <? String.length (String c (body +:+ tail))) = true).
      { apply Nat.ltb_lt. simpl. lia. }
      rewrite Hlen, (IH Hbody). reflexivity.
    + rewrite <- append_String. apply m_lazy_dots; assumption.
Qed.

(** A line comment at the front of the text is matched up to and including
    the end of its line. *)
Lemma m_line_comment (body tail : string) (x : string) :
  all_chars not_line_terminator body = true ->
  m eol tail Some = Some x ->
  m line_comment (two_slashes +:+ body +:+ tail) Some = Some x.
Proof.
  intros Hbody Htail.
  unfold line_comment, at_least_2, two_slashes, str1. simpl seqs.
  rewrite !append_String, append_empty_l.
  rewrite m_seq, m_seq, m_chr.
  change (Ascii.eqb slash slash) with true. cbv iota.
  rewrite m_seq, m_chr.
  change (Ascii.eqb slash slash) with true. cbv iota.
  rewrite (m_ext _ _ _ (fun s1 => m (Star Lazy dot) s1 (fun s => m eol s Some))).
  - apply m_slashes_then_dots; assumption.
  - intros s' _. rewrite m_seq. reflexivity.
Qed.

(** Nothing but the fourth group matches at two slashes. *)
Lemma exec_line_comment (body tail : string) (x : string) :
  all_chars not_line_terminator body = true ->
  m eol tail Some = Some x ->
  exec_groups 1 regexp (two_slashes +:+ body +:+ tail)
  = Some (4, consumed (two_slashes +:+ body +:+ tail) x, x).
Proof.
  intros Hbody Htail.
  pose proof (m_line_comment body tail x Hbody Htail) as Hm.
  unfold regexp, exec_groups.
  assert (H1 : m (quoted dquote) (two_slashes +:+ body +:+ tail) Some = None)
    by reflexivity.
  assert (H2 : m (quoted squote) (two_slashes +:+ body +:+ tail) Some = None)
    by reflexivity.
  assert (H3 : m block_comment (two_slashes +:+ body +:+ tail) Some = None)
    by reflexivity.
  rewrite H1, H2, H3, Hm. reflexivity.
Qed.

Lemma append_char_assoc (a rest : string) (c : ascii) :
  a +:+ String c rest = (a +:+ str1 c) +:+ rest.
Proof. rewrite append_assoc. reflexivity. Qed.

Lemma eqb_nonempty (a : string) :
  1 <= String.length a -> String.eqb a "" = false.
Proof. destruct a; simpl; [lia | reflexivity]. Qed.

(** What the replacer makes of a line comment. *)
Lemma replacer_line_comment (a : string) :
  all_chars not_line_terminator a = true ->
  2 <= String.length a ->
  replacer 4 (a +:+ str1 LF) = str1 LF
  /\ replacer 4 (a +:+ String CR (str1 LF)) = String CR (str1 LF)
  /\ replacer 4 a = "".
Proof.
  intros Hall Hlen.
  assert (Hlast : forall c, String.get (String.length a - 1) a = Some c ->
                    is_line_terminator c = false).
  { intros c Hget. apply negb_true_iff.
    apply (get_all_chars not_line_terminator a _ c Hall Hget). }
  unfold replacer, char_at. simpl (4 =? 3). simpl (4 =? 4). simpl andb.
  split; [|split].
  - rewrite eqb_nonempty by (rewrite length_append; simpl; lia). simpl negb.
    cbv iota. rewrite length_append. simpl String.length.
    replace (String.length a + 1 - 1) with (String.length a + 0) by lia.
    replace (String.length a + 1 - 2) with (String.length a - 1) by lia.
    rewrite get_append_r, get_append_l by lia. simpl String.get.
    rewrite bool_decide_eq_true_2 by reflexivity.
    assert (H2 : (2 <? String.length a + 1) = true) by (apply Nat.ltb_lt; lia).
    rewrite H2. simpl andb. cbv iota.
    rewrite bool_decide_eq_false_2; [reflexivity|].
    intros Hget. apply Hlast in Hget. discriminate.
  - rewrite eqb_nonempty by (rewrite length_append; simpl; lia). simpl negb.
    cbv iota. rewrite length_append. simpl String.length.
    replace (String.length a + 2 - 1) with (String.length a + 1) by lia.
    replace (String.length a + 2 - 2) with (String.length a + 0) by lia.
    rewrite !get_append_r. simpl String.get.
    rewrite !bool_decide_eq_true_2 by reflexivity.
    assert (H2 : (2 <? String.length a + 2) = true) by (apply Nat.ltb_lt; lia).
    rewrite H2. reflexivity.
  - rewrite eqb_nonempty by lia. simpl negb. cbv iota.
    rewrite (bool_decide_eq_false_2 (String.get (String.length a - 1) a = Some LF)).
    + rewrite andb_false_r. reflexivity.
    + intros Hget. apply Hlast in Hget. discriminate.
Qed.

Lemma two_slashes_body (body : string) :
  all_chars not_line_terminator body = true ->
  all_chars not_line_terminator (two_slashes +:+ body) = true
  /\ 2 <= String.length (two_slashes +:+ body).
Proof.
  intros Hbody. split.
  - rewrite all_chars_append, Hbody. reflexivity.
  - rewrite length_append. simpl. lia.
Qed.

(** A line comment that ends in a line feed is replaced by the line feed. *)
Lemma stripComments_line_comment_lf (body rest : string) :
  all_chars not_line_terminator body = true ->
  stripComments (two_slashes +:+ body +:+ String LF rest)
  = String LF (stripComments rest).
Proof.
  intros Hbody.
  destruct (two_slashes_body body Hbody) as [Hall Hlen].
  destruct (replacer_line_comment _ Hall Hlen) as (Hlf & _ & _).
  rewrite (stripComments_match _ rest
             ((two_slashes +:+ body) +:+ str1 LF) 4).
  - rewrite Hlf. reflexivity.
  - rewrite (exec_line_comment body (String LF rest) rest Hbody (m_eol_lf rest)).
    rewrite <- append_assoc, append_char_assoc, consumed_prefix. reflexivity.
  - rewrite !length_append. simpl. lia.
Qed.

(** A line comment that ends in a carriage return and a line feed is
    replaced by the two. *)
Lemma stripComments_line_comment_crlf (body rest : string) :
  all_chars not_line_terminator body = true ->
  stripComments (two_slashes +:+ body +:+ String CR (String LF rest))
  = String CR (String LF (stripComments rest)).
Proof.
  intros Hbody.
  destruct (two_slashes_body body Hbody) as [Hall Hlen].
  destruct (replacer_line_comment _ Hall Hlen) as (_ & Hcrlf & _).
  rewrite (stripComments_match _ rest
             ((two_slashes +:+ body) +:+ String CR (str1 LF)) 4).
  - rewrite Hcrlf. reflexivity.
  - rewrite (exec_line_comment body (String CR (String LF rest)) rest Hbody
               (m_eol_crlf rest)).
    rewrite <- append_assoc.
    replace ((two_slashes +:+ body) +:+ String CR (String LF rest))
      with (((two_slashes +:+ body) +:+ String CR (str1 LF)) +:+ rest)
      by (rewrite append_assoc; reflexivity).
    rewrite consumed_prefix. reflexivity.
  - rewrite !length_append. simpl. lia.
Qed.

(** A line comment that runs to the end of the input is removed. *)
Lemma stripComments_line_comment_end (body : string) :
  all_chars not_line_terminator body = true ->
  stripComments (two_slashes +:+ body) = "".
Proof.
  intros Hbody.
  destruct (two_slashes_body body Hbody) as [Hall Hlen].
  destruct (replacer_line_comment _ Hall Hlen) as (_ & _ & Hend).
  rewrite (stripComments_match _ "" (two_slashes +:+ body) 4).
  - rewrite Hend. reflexivity.
  - pose proof (exec_line_comment body "" "" Hbody m_eol_end) as Hexec.
    rewrite <- append_assoc, consumed_prefix, append_empty_r in Hexec.
    exact Hexec.
  - simpl. lia.
Qed.

(** *** Block comments *)

Lemma block_body_cons (c : ascii) (s' : string) :
  block_body (String c s')
  = if Ascii.eqb c star then
      match s' with
      | String c' _ => negb (Ascii.eqb c' slash) && block_body s'
      | EmptyString => true
      end
    else if Ascii.eqb c CR then
      match s' with
      | String c' s'' => Ascii.eqb c' LF && block_body s''
      | EmptyString => false
      end
    else block_body s'.
Proof. reflexivity. Qed.

Lemma closing_at_end (rest : string) : closing (star_slash +:+ rest) = Some rest.
Proof. reflexivity. Qed.

Lemma closing_not_star (c : ascii) (s : string) :
  Ascii.eqb c star = false -> closing (String c s) = None.
Proof.
  intros Hc. unfold closing. rewrite m_chr, Ascii.eqb_sym, Hc. reflexivity.
Qed.

Lemma closing_star_other (c : ascii) (s : string) :
  Ascii.eqb c slash = false -> closing (String star (String c s)) = None.
Proof.
  intros Hc. unfold closing. rewrite m_chr.
  change (Ascii.eqb star star) with true. cbv iota.
  rewrite m_chr, Ascii.eqb_sym, Hc. reflexivity.
Qed.

Lemma shorter_tail (c : ascii) (s : string) :
  (String.length s <? String.length (String c s)) = true.
Proof. apply Nat.ltb_lt. simpl. lia. Qed.

Lemma shorter_tail2 (c c' : ascii) (s : string) :
  (String.length s <? String.length (String c (String c' s))) = true.
Proof. apply Nat.ltb_lt. simpl. lia. Qed.

(** The lazy walk through the inside of a block comment ends at its
    closing star and slash. *)
Lemma m_block_body (body rest : string) :
  block_body body = true ->
  m (Star Lazy (Alt newline dot)) (body +:+ star_slash +:+ rest) closing
  = Some rest.
Proof.
  remember (String.length body) as n eqn:Hn.
  revert body Hn. induction n as [n IH] using lt_wf_ind. intros body Hn Hbody.
  destruct body as [|c body].
  - rewrite append_empty_l, m_star_lazy, closing_at_end. reflexivity.
  - rewrite append_String, m_star_lazy. simpl in Hn.
    rewrite block_body_cons in Hbody.
    assert (Hrec : forall b, String.length b < n -> block_body b = true ->
              m (Star Lazy (Alt newline dot)) (b +:+ star_slash +:+ rest) closing
              = Some rest).
    { intros b Hb Hbb. apply (IH (String.length b) Hb b eq_refl Hbb). }
    destruct (Ascii.eqb c star) eqn:Hstar.
    + (* a star that does not close the comment *)
      apply Ascii.eqb_eq in Hstar. subst c.
      assert (Hb : block_body body = true).
      { destruct body as [|c' body']; [reflexivity|].
        apply andb_true_iff in Hbody as [_ H]. exact H. }
      assert (Hclose : closing (String star (body +:+ star_slash +:+ rest))
                       = None).
      { destruct body as [|c' body'].
        - reflexivity.
        - apply andb_true_iff in Hbody as [Hc' _].
          apply negb_true_iff in Hc'.
          rewrite append_String. apply closing_star_other, Hc'. }
      rewrite Hclose, m_alt, m_newline_char, m_dot by reflexivity.
      change (is_line_terminator star) with false. cbv iota.
      rewrite shorter_tail. apply Hrec; [lia | exact Hb].
    + rewrite closing_not_star by exact Hstar.
      destruct (Ascii.eqb c CR) eqn:Hcr.
      * (* carriage return and line feed *)
        apply Ascii.eqb_eq in Hcr. subst c.
        destruct body as [|c' body']; [discriminate|].
        apply andb_true_iff in Hbody as [Hlf Hb].
        apply Ascii.eqb_eq in Hlf. subst c'.
        rewrite append_String, m_alt.
        unfold newline. rewrite m_seq, m_opt, m_chr.
        change (Ascii.eqb CR CR) with true. cbv iota.
        rewrite m_chr. change (Ascii.eqb LF LF) with true. cbv iota.
        simpl in Hn.
        rewrite shorter_tail2, Hrec by (lia || exact Hb).
        reflexivity.
      * destruct (Ascii.eqb c LF) eqn:Hlf.
        -- (* a line feed on its own *)
           apply Ascii.eqb_eq in Hlf. subst c.
           rewrite m_alt. unfold newline. rewrite m_seq, m_opt, m_chr.
           change (Ascii.eqb CR LF) with false. cbv iota.
           rewrite m_chr. change (Ascii.eqb LF LF) with true. cbv iota.
           rewrite shorter_tail, Hrec by (lia || exact Hbody). reflexivity.
        -- assert (Hc : is_line_terminator c = false).
           { unfold is_line_terminator. rewrite Hlf, Hcr. reflexivity. }
           rewrite m_alt, m_newline_char, m_dot, Hc by exact Hc.
           rewrite shorter_tail. apply Hrec; [lia | exact Hbody].
Qed.

Lemma m_block_comment (body rest : string) :
  block_body body = true ->
  m block_comment (slash_star +:+ body +:+ star_slash +:+ rest) Some
  = Some rest.
Proof.
  intros Hbody. unfold block_comment, slash_star, str1. simpl seqs.
  rewrite !append_String, append_empty_l.
  rewrite m_seq, m_chr. change (Ascii.eqb slash slash) with true. cbv iota.
  rewrite m_seq, m_chr. change (Ascii.eqb star star) with true. cbv iota.
  rewrite m_seq.
  rewrite (m_ext _ _ _ closing).
  - apply m_block_body, Hbody.
  - intros s' _. reflexivity.
Qed.

(** A block comment at the front of the text is removed. *)
Lemma stripComments_block_comment (body rest : string) :
  block_body body = true ->
  stripComments (slash_star +:+ body +:+ star_slash +:+ rest)
  = stripComments rest.
Proof.
  intros Hbody.
  rewrite (stripComments_match _ rest
             (slash_star +:+ body +:+ star_slash) 3).
  - reflexivity.
  - unfold regexp, exec_groups.
    assert (H1 : m (quoted dquote)
                   (slash_star +:+ body +:+ star_slash +:+ rest) Some = None)
      by reflexivity.
    assert (H2 : m (quoted squote)
                   (slash_star +:+ body +:+ star_slash +:+ rest) Some = None)
      by reflexivity.
    rewrite H1, H2, (m_block_comment body rest Hbody).
    replace (slash_star +:+ body +:+ star_slash +:+ rest)
      with ((slash_star +:+ body +:+ star_slash) +:+ rest)
      by (rewrite !append_assoc; reflexivity).
    rewrite consumed_prefix. reflexivity.
  - rewrite !length_append. simpl. lia.
Qed.

(** *** String literals *)

Lemma string_body_cons (q c : ascii) (s' : string) :
  string_body q (String c s')
  = if Ascii.eqb c backslash then
      match s' with
      | String e s'' => negb (is_line_terminator e) && string_body q s''
      | EmptyString => false
      end
    else negb (Ascii.eqb c q) && string_body q s'.
Proof. reflexivity. Qed.

Lemma unescaped_spec (q c : ascii) :
  unescaped q c = negb (Ascii.eqb c backslash) && negb (Ascii.eqb c q).
Proof.
  unfold unescaped. simpl existsb. rewrite orb_false_r, negb_orb. reflexivity.
Qed.

(** The inside of a string literal is a run of unescaped characters,
    followed by nothing or by an escape and the inside of a string literal. *)
Lemma string_body_split (q : ascii) (body : string) :
  string_body q body = true ->
  exists run body2,
    body = run +:+ body2
    /\ all_chars (unescaped q) run = true
    /\ (body2 = ""
        \/ exists e body3,
             body2 = String backslash (String e body3)
             /\ is_line_terminator e = false
             /\ string_body q body3 = true
             /\ String.length body3 < String.length body).
Proof.
  induction body as [|c body IH]; intros Hbody.
  - exists "", "". repeat split. left. reflexivity.
  - rewrite string_body_cons in Hbody.
    destruct (Ascii.eqb c backslash) eqn:Hc.
    + apply Ascii.eqb_eq in Hc. subst c.
      destruct body as [|e body3]; [discriminate|].
      apply andb_true_iff in Hbody as [He Hb3]. apply negb_true_iff in He.
      exists "", (String backslash (String e body3)).
      split; [reflexivity|]. split; [reflexivity|]. right.
      exists e, body3. repeat split; try assumption. simpl. lia.
    + apply andb_true_iff in Hbody as [Hq Hb].
      destruct (IH Hb) as (run & body2 & Heq & Hrun & Hrest).
      exists (String c run), body2.
      split; [rewrite append_String, Heq; reflexivity|].
      split; [simpl; rewrite unescaped_spec, Hc, Hq, Hrun; reflexivity|].
      destruct Hrest as [-> | (e & body3 & -> & He & Hb3 & Hlen)];
        [left; reflexivity|].
      right. exists e, body3. repeat split; try assumption. simpl. lia.
Qed.

(** A greedy star over a character class takes the whole run of characters
    of the class when the continuation accepts what follows. *)
Lemma m_greedy_run (p : ascii -> bool) (run s1 : string) (k : cont)
    (x : string) :
  all_chars p run = true ->
  k s1 = Some x ->
  (forall c s2, s1 = String c s2 -> p c = false) ->
  m (Star Greedy (Set_ p)) (run +:+ s1) k = Some x.
Proof.
  intros Hrun Hk Hstop. induction run as [|c run IH].
  - rewrite append_empty_l, m_star_greedy.
    destruct s1 as [|c s2].
    + simpl m at 1. exact Hk.
    + rewrite m_set, (Hstop c s2 eq_refl). exact Hk.
  - simpl in Hrun. apply andb_true_iff in Hrun as [Hc Hrun].
    rewrite append_String, m_star_greedy, m_set, Hc, shorter_tail, (IH Hrun).
    reflexivity.
Qed.

Lemma m_string_rounds (q : ascii) (body rest : string) :
  q <> backslash ->
  string_body q body = true ->
  m (string_rounds q) (body +:+ String q rest) (fun s => m (chr q) s Some)
  = Some rest.
Proof.
  intros Hq.
  remember (String.length body) as n eqn:Hn.
  revert body Hn. induction n as [n IH] using lt_wf_ind. intros body Hn Hbody.
  assert (Hrec : forall b, String.length b < n -> string_body q b = true ->
            m (string_rounds q) (b +:+ String q rest)
              (fun s => m (chr q) s Some) = Some rest).
  { intros b Hb Hbb. apply (IH (String.length b) Hb b eq_refl Hbb). }
  assert (Hquote : unescaped q q = false).
  { rewrite unescaped_spec, Ascii.eqb_refl, andb_false_r. reflexivity. }
  assert (Hqb : Ascii.eqb backslash q = false).
  { apply Ascii.eqb_neq. congruence. }
  destruct (string_body_split q body Hbody)
    as (run & body2 & Heq & Hrun & Hrest).
  unfold string_rounds. rewrite m_star_greedy. fold (string_rounds q).
  change (none_of [backslash; q]) with (Set_ (unescaped q)).
  rewrite m_seq. subst body. rewrite append_assoc.
  destruct Hrest as [-> | (e & body3 & -> & He & Hb3 & Hlen)].
  - (* the run reaches the closing quote *)
    rewrite append_empty_l.
    destruct run as [|c run].
    + rewrite append_empty_l.
      rewrite m_star_greedy, m_set.
      rewrite Hquote, m_opt, m_seq, m_chr, Hqb.
      rewrite Nat.ltb_irrefl, m_chr, Ascii.eqb_refl. reflexivity.
    + rewrite (m_greedy_run (unescaped q) (String c run) (String q rest) _ rest).
      * reflexivity.
      * exact Hrun.
      * rewrite m_opt, m_seq, m_chr, Hqb.
        assert (Hlen : (String.length (String q rest)
                        <? String.length (String c run +:+ String q rest))
                       = true).
        { apply Nat.ltb_lt. rewrite length_append. simpl. lia. }
        rewrite Hlen.
        rewrite <- (append_empty_l (String q rest)).
        apply Hrec; [|reflexivity].
        rewrite append_empty_r in Hn. simpl in Hn. simpl. lia.
      * intros c' s2 Hc'. injection Hc' as <- <-. exact Hquote.
  - (* the run reaches an escape *)
    rewrite !append_String.
    rewrite (m_greedy_run (unescaped q) run _ _ rest).
    + reflexivity.
    + exact Hrun.
    + rewrite m_opt, m_seq, m_chr.
      change (Ascii.eqb backslash backslash) with true. cbv iota.
      rewrite m_dot, He.
      assert (Hshort : (String.length (body3 +:+ String q rest)
                        <? String.length
                             (run +:+ String backslash
                                (String e (body3 +:+ String q rest))))
                       = true).
      { apply Nat.ltb_lt. rewrite !length_append. simpl.
        rewrite length_append. simpl. lia. }
      rewrite Hshort, Hrec; [reflexivity | | exact Hb3].
      rewrite length_append in Hn. simpl in Hn. lia.
    + intros c' s2 Hc'. injection Hc' as <- _.
      rewrite unescaped_spec. reflexivity.
Qed.

(** A string literal at the front of the text is matched as a whole. *)
Lemma m_quoted (q : ascii) (body rest : string) :
  q <> backslash ->
  string_body q body = true ->
  m (quoted q) (String q (body +:+ String q rest)) Some = Some rest.
Proof.
  intros Hq Hbody. unfold quoted. simpl seqs. fold (string_rounds q).
  rewrite m_seq, m_chr, Ascii.eqb_refl, m_seq.
  apply m_string_rounds; assumption.
Qed.

Lemma consumed_quoted (q : ascii) (body rest : string) :
  consumed (String q (body +:+ String q rest)) rest
  = String q (body +:+ str1 q).
Proof.
  replace (String q (body +:+ String q rest))
    with (String q (body +:+ str1 q) +:+ rest).
  - apply consumed_prefix.
  - rewrite append_String, append_assoc. reflexivity.
Qed.

(** String literals are kept as they are, whatever they hold. *)
Lemma stripComments_double_quoted (body rest : string) :
  string_body dquote body = true ->
  stripComments (String dquote (body +:+ String dquote rest))
  = String dquote (body +:+ String dquote (stripComments rest)).
Proof.
  intros Hbody.
  rewrite (stripComments_match _ rest (String dquote (body +:+ str1 dquote)) 1).
  - change (replacer 1 (String dquote (body +:+ str1 dquote)))
      with (String dquote (body +:+ str1 dquote)).
    rewrite append_String, append_assoc. reflexivity.
  - unfold regexp, exec_groups.
    rewrite (m_quoted dquote body rest) by (discriminate || exact Hbody).
    rewrite consumed_quoted. reflexivity.
  - simpl. rewrite length_append. simpl. lia.
Qed.

Lemma stripComments_single_quoted (body rest : string) :
  string_body squote body = true ->
  stripComments (String squote (body +:+ String squote rest))
  = String squote (body +:+ String squote (stripComments rest)).
Proof.
  intros Hbody.
  rewrite (stripComments_match _ rest (String squote (body +:+ str1 squote)) 2).
  - change (replacer 2 (String squote (body +:+ str1 squote)))
      with (String squote (body +:+ str1 squote)).
    rewrite append_String, append_assoc. reflexivity.
  - unfold regexp, exec_groups.
    assert (H1 : m (quoted dquote)
                   (String squote (body +:+ String squote rest)) Some = None)
      by reflexivity.
    rewrite H1, (m_quoted squote body rest) by (discriminate || exact Hbody).
    rewrite consumed_quoted. reflexivity.
  - simpl. rewrite length_append. simpl. lia.
Qed.

(** *** Everything else *)

(** A character that opens neither a string nor a comment is copied. *)
Lemma stripComments_plain (c : ascii) (s : string) :
  Ascii.eqb c dquote = false -> Ascii.eqb c squote = false ->
  Ascii.eqb c slash = false ->
  stripComments (String c s) = String c (stripComments s).
Proof.
  intros Hd Hs Hsl. apply stripComments_copy.
  unfold regexp, exec_groups, quoted, block_comment, line_comment, at_least_2.
  simpl seqs.
  rewrite !m_seq, !m_chr.
  rewrite (Ascii.eqb_sym dquote c), (Ascii.eqb_sym squote c),
    (Ascii.eqb_sym slash c), Hd, Hs, Hsl.
  reflexivity.
Qed.

(** *** The reference stripper on the parts of a text *)

Lemma reference_string (q : ascii) (body s : string) :
  q <> backslash ->
  string_body q body = true ->
  reference (InString q) (body +:+ String q s)
  = body +:+ String q (reference Code s).
Proof.
  intros Hq.
  remember (String.length body) as n eqn:Hn.
  revert body Hn. induction n as [n IH] using lt_wf_ind. intros body Hn Hbody.
  destruct body as [|c body].
  - rewrite !append_empty_l. simpl reference.
    apply Ascii.eqb_neq in Hq. rewrite Hq, Ascii.eqb_refl. reflexivity.
  - rewrite string_body_cons in Hbody. rewrite !append_String.
    simpl reference. simpl in Hn.
    destruct (Ascii.eqb c backslash) eqn:Hc.
    + destruct body as [|e body]; [discriminate|].
      apply andb_true_iff in Hbody as [_ Hb].
      rewrite !append_String. simpl reference.
      rewrite (IH (String.length body)); [reflexivity | | reflexivity | exact Hb].
      simpl in Hn. lia.
    + apply andb_true_iff in Hbody as [Hcq Hb]. apply negb_true_iff in Hcq.
      rewrite Hcq.
      rewrite (IH (String.length body)); [reflexivity | lia | reflexivity | exact Hb].
Qed.

Lemma block_body_tail (c : ascii) (s : string) :
  block_body (String c s) = true -> block_body s = true.
Proof.
  rewrite block_body_cons.
  destruct (Ascii.eqb c star).
  - destruct s as [|c' s']; [reflexivity|].
    intros H. apply andb_true_iff in H as [_ H]. exact H.
  - destruct (Ascii.eqb c CR); [|auto].
    destruct s as [|c' s']; [discriminate|].
    intros H. apply andb_true_iff in H as [Hlf H].
    apply Ascii.eqb_eq in Hlf. subst c'. rewrite block_body_cons.
    change (Ascii.eqb LF star) with false. change (Ascii.eqb LF CR) with false.
    exact H.
Qed.

Lemma block_body_no_close (body : string) :
  block_body body = true -> no_close body = true.
Proof.
  induction body as [|c body IH]; [reflexivity|]. intros Hbody.
  simpl no_close. rewrite (IH (block_body_tail c body Hbody)), andb_true_r.
  rewrite block_body_cons in Hbody.
  destruct (Ascii.eqb c star); [|reflexivity].
  destruct body as [|c' body']; [reflexivity|].
  apply andb_true_iff in Hbody as [H _]. exact H.
Qed.

Lemma reference_block (body s : string) :
  no_close body = true ->
  reference InBlock (body +:+ star_slash +:+ s) = reference Code s
  /\ ((forall c b, body = String c b -> Ascii.eqb c slash = false) ->
      reference InBlockStar (body +:+ star_slash +:+ s) = reference Code s).
Proof.
  induction body as [|c body IH]; intros Hbody.
  - split; [reflexivity|]. intros _. reflexivity.
  - simpl in Hbody. apply andb_true_iff in Hbody as [Hc Hb].
    destruct (IH Hb) as [IHblock IHstar].
    rewrite append_String. simpl reference.
    assert (Hnext : Ascii.eqb c star = true ->
              forall c' b, body = String c' b -> Ascii.eqb c' slash = false).
    { intros Hstar c' b ->. rewrite Hstar in Hc.
      apply negb_true_iff in Hc. exact Hc. }
    split.
    + destruct (Ascii.eqb c star) eqn:Hstar; [|exact IHblock].
      apply IHstar, Hnext. reflexivity.
    + intros Hslash. rewrite (Hslash c body eq_refl).
      destruct (Ascii.eqb c star) eqn:Hstar; [|exact IHblock].
      apply IHstar, Hnext. reflexivity.
Qed.

Lemma reference_line (body tail : string) :
  all_chars not_line_terminator body = true ->
  reference InLine (body +:+ tail) = reference InLine tail.
Proof.
  induction body as [|c body IH]; intros Hbody; [reflexivity|].
  simpl in Hbody. apply andb_true_iff in Hbody as [Hc Hb].
  apply negb_true_iff, orb_false_iff in Hc as [Hlf Hcr].
  rewrite append_String. simpl reference. rewrite Hlf, Hcr. apply IH, Hb.
Qed.

(** On JSON with comments in whose block comments every carriage return
    comes with its line feed, the comment stripper and the reference
    stripper give the same text: string literals are kept verbatim, comments
    go, and the newline that ends a line comment stays. *)
Lemma stripComments_refines_reference (s : string) :
  regular_jsonc s -> stripComments s = referenceStrip s.
Proof.
  unfold regular_jsonc, referenceStrip.
  induction 1 as [ | c s Hq Hsl _ IH | q body s Hq Hbody _ IH
                 | body s Hbody _ IH | body s Hbody _ IH
                 | body s Hbody _ IH | body Hbody ].
  - reflexivity.
  - apply orb_false_iff in Hq as [Hd Hs].
    rewrite stripComments_plain by assumption.
    simpl reference. unfold is_quote. rewrite Hd, Hs, Hsl. simpl.
    rewrite IH. reflexivity.
  - simpl reference. rewrite Hq.
    apply orb_true_iff in Hq as [Hd | Hs].
    + apply Ascii.eqb_eq in Hd. subst q.
      rewrite stripComments_double_quoted, reference_string, IH
        by (discriminate || exact Hbody).
      reflexivity.
    + apply Ascii.eqb_eq in Hs. subst q.
      rewrite stripComments_single_quoted, reference_string, IH
        by (discriminate || exact Hbody).
      reflexivity.
  - rewrite stripComments_block_comment by exact Hbody.
    unfold slash_star, str1. rewrite !append_String, append_empty_l.
    simpl reference.
    destruct (reference_block body s (block_body_no_close body Hbody))
      as [Hblock _].
    rewrite Hblock. exact IH.
  - rewrite stripComments_line_comment_lf by exact Hbody.
    unfold two_slashes, str1. rewrite !append_String, append_empty_l.
    simpl reference. rewrite reference_line by exact Hbody.
    simpl reference. rewrite IH. reflexivity.
  - rewrite stripComments_line_comment_crlf by exact Hbody.
    unfold two_slashes, str1. rewrite !append_String, append_empty_l.
    simpl reference. rewrite reference_line by exact Hbody.
    simpl reference. rewrite IH. reflexivity.
  - rewrite stripComments_line_comment_end by exact Hbody.
    unfold two_slashes, str1. rewrite !append_String, append_empty_l.
    simpl reference.
    rewrite <- (append_empty_r body), reference_line by exact Hbody.
    reflexivity.
Qed.

(** *** Where the pattern gives up *)

(** C6 at a block comment that holds a lone carriage return: the pattern
    for block comments does not match it and the comment stays in the
    output, where the same comment with a line feed behind the carriage
    return is removed entirely. *)
Theorem block_comment_with_lone_CR_survives :
  no_close (str1 CR) = true
  /\ exec_groups 1 regexp loneCRComment = None
  /\ stripComments loneCRComment = loneCRComment
  /\ stripComments crlfComment = "".
Proof. repeat split; vm_compute; reflexivity. Qed.

(** C7 at a well-formed input whose block comment holds a lone carriage
    return: the reference stripper leaves the JSON text, the comment
    stripper leaves the comment in, and parsing the two gives different
    results. *)
Theorem lone_CR_comment_breaks_parsing :
  wellformed_jsonc loneCRFlags
  /\ referenceStrip loneCRFlags = "{}"
  /\ stripComments loneCRFlags = loneCRFlags
  /\ JSON.parse (referenceStrip loneCRFlags) = Some (JObj [])
  /\ JSON.parse (stripComments loneCRFlags) = None.
Proof.
  split; [|repeat split; vm_compute; reflexivity].
  unfold wellformed_jsonc, loneCRFlags, loneCRComment.
  rewrite !append_assoc.
  apply (jsonc_block no_close (str1 CR) "{}"); [reflexivity|].
  apply jsonc_char; [reflexivity | reflexivity|].
  apply jsonc_char; [reflexivity | reflexivity|].
  apply jsonc_end.
Qed.

(** A line comment that holds a lone carriage return is not matched
    either. *)
Lemma line_comment_with_lone_CR_survives :
  let text := "// a" +:+ str1 CR +:+ "b" +:+ nl in
  stripComments text = text.
Proof. vm_compute. reflexivity. Qed.

(** Comment-like text inside a string literal stays as it is. *)
Lemma comment_syntax_inside_string_is_kept :
  let text := "{" +:+ dq +:+ "a" +:+ dq +:+ ": " +:+ dq
              +:+ "// not a comment /* nor this */" +:+ dq +:+ "}" in
  stripComments text = text.
Proof. vm_compute. reflexivity. Qed.

(** Stripping and parsing agree with the reference on regular input,
    whatever the parser. *)
Lemma parse_after_strip_refines_reference (w : World) (s : string) :
  regular_jsonc s ->
  JSON_parse w (stripComments s) = JSON_parse w (referenceStrip s).
Proof. intros H. rewrite (stripComments_refines_reference s H). reflexivity. Qed.

(** The default template, stripped of its comments, parses to the default
    configuration. *)
Lemma stripComments_default_template :
  JSON.parse (stripComments defaultFlagsConfigRaw) = Some defaultFlagsConfig.
Proof. vm_compute. reflexivity. Qed.

(** ** More on getJSFlags *)

(** *** The pattern for the old space size *)

Lemma m_lit_cons (c : ascii) (l : string) (s : string) (k : cont) :
  m (lit (String c l)) s k = m (chr c) s (fun s' => m (lit l) s' k).
Proof. destruct l; reflexivity. Qed.

(** A literal matches itself and nothing else. *)
Lemma m_lit (l t : string) (k : cont) : m (lit l) (l +:+ t) k = k t.
Proof.
  revert t k. induction l as [|c l IH]; intros t k.
  - reflexivity.
  - rewrite m_lit_cons, append_String, m_chr, Ascii.eqb_refl. apply IH.
Qed.

Lemma m_lit_inv (l s : string) (k : cont) (x : string) :
  m (lit l) s k = Some x -> exists t, s = l +:+ t /\ k t = Some x.
Proof.
  revert s k x. induction l as [|c l IH]; intros s k x H.
  - exists s. split; [reflexivity | exact H].
  - rewrite m_lit_cons in H. destruct s as [|c' s]; [discriminate|].
    rewrite m_chr in H. destruct (Ascii.eqb c c') eqn:E; [|discriminate].
    apply Ascii.eqb_eq in E. subst c'.
    apply IH in H as (t & -> & Hk). exists t. split; [reflexivity | exact Hk].
Qed.

(** A greedy star in front of the end of the pattern always matches. *)
Lemma m_star_greedy_some (r : regex) (s : string) :
  exists x, m (Star Greedy r) s Some = Some x.
Proof.
  rewrite m_star_greedy. destruct (m r s _) as [x|]; eauto.
Qed.

Lemma m_old_space_size (t : string) :
  (exists x, m old_space_size t Some = Some x)
  <-> exists d after,
        t = max_old_space_size_eq +:+ String d after /\ is_digit d = true.
Proof.
  unfold old_space_size. fold max_old_space_size_eq. split.
  - intros [x H]. rewrite m_seq in H.
    apply m_lit_inv in H as (t' & -> & H).
    rewrite m_seq in H. destruct t' as [|d after]; [discriminate|].
    rewrite m_set in H. destruct (is_digit d) eqn:Hd; [|discriminate].
    exists d, after. auto.
  - intros (d & after & -> & Hd).
    rewrite m_seq, m_lit, m_seq, m_set, Hd.
    apply m_star_greedy_some.
Qed.

Lemma found_cons (r : regex) (c : ascii) (s : string) :
  found r (String c s)
  = match m r (String c s) Some with
    | Some _ => true
    | None => found r s
    end.
Proof. reflexivity. Qed.

(** [found] looks for a match at every position of the text. *)
Lemma found_somewhere (r : regex) (s : string) :
  found r s = true
  <-> exists before t x, s = before +:+ t /\ m r t Some = Some x.
Proof.
  induction s as [|c s IH].
  - simpl. destruct (m r "" Some) as [x|] eqn:E.
    + split; [intros _; exists "", "", x; auto | reflexivity].
    + split; [discriminate|]. intros (before & t & x & Hs & Hm).
      destruct before; [|discriminate]. rewrite append_empty_l in Hs.
      subst t. congruence.
  - rewrite found_cons. destruct (m r (String c s) Some) as [x|] eqn:E.
    + split; [intros _; exists "", (String c s), x; auto | reflexivity].
    + rewrite IH. split.
      * intros (before & t & x & -> & Hm).
        exists (String c before), t, x. auto.
      * intros (before & t & x & Hs & Hm).
        destruct before as [|c' before].
        -- rewrite append_empty_l in Hs. subst t. congruence.
        -- rewrite append_String in Hs. injection Hs as _ ->.
           exists before, t, x. auto.
Qed.

Lemma found_old_space_size (flags : string) :
  found old_space_size flags = true <-> sets_old_space_size flags.
Proof.
  rewrite found_somewhere. unfold sets_old_space_size. split.
  - intros (before & t & x & -> & Hm).
    destruct (proj1 (m_old_space_size t) (ex_intro _ x Hm))
      as (d & after & -> & Hd).
    exists before, d, after. auto.
  - intros (before & d & after & -> & Hd).
    destruct (proj2 (m_old_space_size (max_old_space_size_eq +:+ String d after)))
      as [x Hx]; [eauto|].
    exists before, (max_old_space_size_eq +:+ String d after), x. auto.
Qed.

(** X1. The pattern of getJSFlags is found exactly in the texts that hold
    max_old_space_size= directly followed by a digit. *)
Theorem old_space_size_found_iff (flags : string) :
  found old_space_size flags = true <-> sets_old_space_size flags.
Proof. apply found_old_space_size. Qed.

Lemma found_falsy (v : option argval) :
  truthy_arg v = false -> found old_space_size (arg_to_string v) = false.
Proof.
  destruct v as [[s | [] | l]|]; simpl; try discriminate; try reflexivity.
  intros H. apply negb_false_iff, String.eqb_eq in H. subst s. reflexivity.
Qed.

(** X2. getJSFlags returns null exactly when neither js-flags nor
    max-memory is given. *)
Theorem getJSFlags_null_iff (cliArgs : gmap string argval) :
  getJSFlags cliArgs = None
  <-> truthy_arg (cliArgs !! "js-flags") = false
      /\ truthy_arg (cliArgs !! "max-memory") = false.
Proof.
  unfold getJSFlags.
  destruct (truthy_arg (cliArgs !! "js-flags")) eqn:Hjs.
  - split; [|intros [H _]; discriminate].
    destruct (truthy_arg (cliArgs !! "max-memory")
              && negb (found old_space_size (arg_to_string (cliArgs !! "js-flags"))));
      discriminate.
  - rewrite (found_falsy _ Hjs). simpl negb. rewrite andb_true_r.
    destruct (truthy_arg (cliArgs !! "max-memory")); simpl.
    + split; [discriminate | intros [_ H]; discriminate].
    + split; auto.
Qed.

(** X3. The user's js-flags come first and unchanged; the max-memory token
    is appended behind them unless they set the old space size themselves or
    no max-memory is given. *)
Theorem getJSFlags_user_flags_first (cliArgs : gmap string argval)
    (flags : string) :
  cliArgs !! "js-flags" = Some (AString flags) -> flags <> "" ->
  (truthy_arg (cliArgs !! "max-memory") = false \/ sets_old_space_size flags ->
   getJSFlags cliArgs = Some flags)
  /\ (truthy_arg (cliArgs !! "max-memory") = true ->
      ~ sets_old_space_size flags ->
      getJSFlags cliArgs
        = Some (flags +:+ " --max_old_space_size=" +:+
                arg_to_string (cliArgs !! "max-memory"))).
Proof.
  intros Hjs Hne. unfold getJSFlags. rewrite Hjs. simpl arg_to_string.
  assert (Ht : truthy_arg (Some (AString flags)) = true).
  { simpl. apply negb_true_iff, String.eqb_neq, Hne. }
  rewrite Ht. split.
  - intros Hno.
    assert (Hcond : truthy_arg (cliArgs !! "max-memory")
                    && negb (found old_space_size flags) = false).
    { destruct Hno as [-> | Hset]; [reflexivity|].
      apply found_old_space_size in Hset. rewrite Hset.
      apply andb_false_r. }
    rewrite Hcond. simpl. reflexivity.
  - intros Hmax Hnot. rewrite Hmax.
    destruct (found old_space_size flags) eqn:Hfound.
    + apply found_old_space_size in Hfound. contradiction.
    + simpl. reflexivity.
Qed.

(** js-flags without an old space size, and max-memory=4096. *)
Lemma getJSFlags_user_flags_first_witness :
  let cliArgs : gmap string argval :=
    <["js-flags" := AString "--expose-gc"]> {["max-memory" := AString "4096"]} in
  ~ sets_old_space_size "--expose-gc"
  /\ getJSFlags cliArgs = Some "--expose-gc --max_old_space_size=4096".
Proof.
  intros cliArgs.
  assert (Hnot : ~ sets_old_space_size "--expose-gc").
  { intros H. apply found_old_space_size in H. vm_compute in H.
    discriminate. }
  split; [exact Hnot|].
  destruct (getJSFlags_user_flags_first cliArgs "--expose-gc") as [_ H].
  - reflexivity.
  - discriminate.
  - apply H; [reflexivity | exact Hnot].
Defined.

(** ** What the parts of the script call and change *)

Lemma grows_refl (allowed : event -> bool) (st : State) : grows allowed st st.
Proof. exists []. rewrite app_nil_r. auto. Qed.

Lemma grows_trans (allowed : event -> bool) (st1 st2 st3 : State) :
  grows allowed st1 st2 -> grows allowed st2 st3 -> grows allowed st1 st3.
Proof.
  intros (e1 & H1 & A1) (e2 & H2 & A2). exists (e1 ++ e2).
  rewrite H2, H1, <- app_assoc, forallb_app, A1, A2. auto.
Qed.

#[export] Instance grows_preorder (allowed : event -> bool) :
  PreOrder (grows allowed).
Proof.
  split; [intros st; apply grows_refl | intros st1 st2 st3; apply grows_trans].
Qed.

#[export] Instance calls_only_preorder (allowed : event -> bool) :
  PreOrder (calls_only allowed).
Proof.
  split.
  - intros st. repeat split. apply grows_refl.
  - intros st1 st2 st3 (F1 & E1 & C1 & G1) (F2 & E2 & C2 & G2).
    repeat split; try congruence. eapply grows_trans; eassumption.
Qed.

Lemma grows_emit (allowed : event -> bool) (e : event) (st : State) :
  allowed e = true -> grows allowed st (emit e st).
Proof. intros H. exists [e]. simpl. rewrite H. auto. Qed.

Lemma grows_same_trace (allowed : event -> bool) (st st' : State) :
  trace st' = trace st -> grows allowed st st'.
Proof. intros H. exists []. rewrite app_nil_r. auto. Qed.

Lemma calls_only_emit (allowed : event -> bool) (e : event) (st : State) :
  allowed e = true -> calls_only allowed st (emit e st).
Proof. intros H. repeat split. apply grows_emit, H. Qed.

Lemma calls_only_set_promise (allowed : event -> bool)
    (p : option (outcome (option object))) (st : State) :
  calls_only allowed st (set_nlsConfigurationPromise p st).
Proof. repeat split. apply grows_same_trace. reflexivity. Qed.

Lemma grows_weaken (allowed allowed' : event -> bool) (st st' : State) :
  (forall e, allowed e = true -> allowed' e = true) ->
  grows allowed st st' -> grows allowed' st st'.
Proof.
  intros Hsub (events & Ht & Hall). exists events. split; [exact Ht|].
  rewrite forallb_forall in *. auto.
Qed.

Lemma calls_only_grows (allowed : event -> bool) (st st' : State) :
  calls_only allowed st st' -> grows allowed st st'.
Proof. intros (_ & _ & _ & H). exact H. Qed.

(** Calls other than the load of the bundle leave the count of loads. *)
Lemma grows_bundle_loads (allowed : event -> bool) (st st' : State) :
  (forall e, allowed e = true -> is_load e = false) ->
  grows allowed st st' -> bundle_loads st' = bundle_loads st.
Proof.
  intros Hsub (events & Ht & Hall). unfold bundle_loads.
  rewrite Ht, List.filter_app, List.length_app.
  assert (Hnone : List.filter is_load events = []).
  { clear Ht. induction events as [|e events IH]; [reflexivity|].
    simpl in Hall. apply andb_true_iff in Hall as [He Hall].
    simpl. rewrite (Hsub e He). apply IH, Hall. }
  rewrite Hnone. simpl. lia.
Qed.

Section Preserves.

Context (R : relation State) `{!PreOrder R}.

Lemma preserves_ret {A} (a : A) : preserves R (ret a).
Proof. intros st. simpl. reflexivity. Qed.

Lemma preserves_throw {A} (e : js_error) : preserves R (@throw A e).
Proof. intros st. simpl. reflexivity. Qed.

Lemma preserves_await {A} (p : outcome A) : preserves R (await p).
Proof. intros st. simpl. reflexivity. Qed.

Lemma preserves_get_state : preserves R get_state.
Proof. intros st. simpl. reflexivity. Qed.

Lemma preserves_modify (f : State -> State) :
  (forall st, R st (f st)) -> preserves R (modify f).
Proof. intros H st. apply H. Qed.

Lemma preserves_bind {A B} (c : M A) (f : A -> M B) :
  preserves R c -> (forall a, preserves R (f a)) -> preserves R (bind c f).
Proof.
  intros Hc Hf st. unfold bind. specialize (Hc st).
  destruct (c st) as [[a | e] st1]; simpl in Hc.
  - etransitivity; [exact Hc | apply Hf].
  - exact Hc.
Qed.

Lemma preserves_try_catch {A} (body : M A) (handler : js_error -> M A) :
  preserves R body -> (forall e, preserves R (handler e)) ->
  preserves R (try_catch body handler).
Proof.
  intros Hc Hf st. unfold try_catch. specialize (Hc st).
  destruct (body st) as [[a | e] st1]; simpl in Hc.
  - exact Hc.
  - etransitivity; [exact Hc | apply Hf].
Qed.

Lemma preserves_promise_of {A} (c : M A) :
  preserves R c -> preserves R (promise_of c).
Proof.
  intros Hc st. unfold promise_of. specialize (Hc st).
  destruct (c st) as [r st1]. exact Hc.
Qed.

Lemma preserves_forEach {A} (f : A -> M unit) (l : list A) :
  (forall x, preserves R (f x)) -> preserves R (forEach f l).
Proof.
  intros Hf. induction l as [|x l IH]; simpl.
  - apply preserves_ret.
  - apply preserves_bind; [apply Hf | intros _; exact IH].
Qed.

End Preserves.

(** The file system calls. *)
Lemma fs_readFileSync_calls (allowed : event -> bool) (path : string) :
  allowed (EvReadFile path) = true ->
  preserves (calls_only allowed) (fs_readFileSync path).
Proof.
  intros H st. unfold fs_readFileSync. simpl.
  destruct (files st !! path) as [[content | f]|]; simpl;
    apply calls_only_emit, H.
Qed.

Lemma fs_writeFileSync_grows (allowed : event -> bool) (w : World)
    (path data : string) :
  allowed (EvWriteFile path) = true ->
  preserves (grows allowed) (fs_writeFileSync w path data).
Proof.
  intros H st. unfold fs_writeFileSync.
  destruct (fs_write_fault w path); simpl.
  - apply grows_emit, H.
  - exists [EvWriteFile path]. simpl. rewrite H. auto.
Qed.

Lemma parse_preserves (R : relation State) `{!PreOrder R} (w : World)
    (text : string) :
  preserves R (parse w text).
Proof.
  unfold parse. destruct (JSON_parse w text);
    [refine (preserves_ret _ _) | refine (preserves_throw _ _)].
Qed.

(** One step of a proof that a part of the script stays within a
    relation. *)
Ltac preserves_step :=
  lazymatch goal with
  | |- preserves _ (ret _) => refine (preserves_ret _ _)
  | |- preserves _ (throw _) => refine (preserves_throw _ _)
  | |- preserves _ (await _) => refine (preserves_await _ _)
  | |- preserves _ get_state => refine (preserves_get_state _)
  | |- preserves _ (promise_of _) => refine (preserves_promise_of _ _ _)
  | |- preserves _ (bind _ _) => refine (preserves_bind _ _ _ _ _); [|intros ?]
  | |- preserves _ (try_catch _ _) =>
      refine (preserves_try_catch _ _ _ _ _); [|intros ?]
  | |- preserves _ (forEach _ _) => refine (preserves_forEach _ _ _ _); intros ?
  | |- preserves _ (modify _) =>
      refine (preserves_modify _ _ _); intros ?;
      first [ apply calls_only_emit; reflexivity
            | apply calls_only_set_promise
            | apply grows_emit; reflexivity
            | apply grows_same_trace; reflexivity ]
  | |- preserves (calls_only _) (fs_readFileSync _) =>
      apply fs_readFileSync_calls; reflexivity
  | |- preserves (grows _) (fs_readFileSync _) =>
      intros ?; apply calls_only_grows; apply fs_readFileSync_calls; reflexivity
  | |- preserves _ (parse _ _) => refine (parse_preserves _ _ _)
  | |- preserves _ (fs_writeFileSync _ _ _) =>
      apply fs_writeFileSync_grows; reflexivity
  | |- preserves _ (if ?b then _ else _) => destruct b
  | |- preserves _ (match ?x with _ => _ end) => destruct x
  end.

Lemma getUserDefinedLocale_calls (w : World) :
  preserves (calls_only is_query) (getUserDefinedLocale w).
Proof.
  unfold getUserDefinedLocale, bootstrap_readFile, locale_member.
  repeat preserves_step.
Qed.

Lemma onUserDefinedLocale_calls (w : World)
    (userDefinedLocale : outcome (option string)) :
  preserves (calls_only is_query) (onUserDefinedLocale w userDefinedLocale).
Proof.
  unfold onUserDefinedLocale, getNLSConfiguration. repeat preserves_step.
Qed.

Lemma resolveNlsConfiguration_calls (w : World) (locale : option string) :
  preserves (calls_only is_nls_query) (resolveNlsConfiguration w locale).
Proof.
  unfold resolveNlsConfiguration, getNLSConfiguration, getLocale.
  repeat preserves_step.
Qed.

Lemma ensureExists_calls (w : World) (value : option string) :
  preserves (calls_only is_query) (ensureExists w value).
Proof. unfold ensureExists. repeat preserves_step. Qed.

Lemma configureCommandlineSwitches_grows (w : World)
    (cliArgs : gmap string argval) :
  preserves (grows not_load) (configureCommandlineSwitches w cliArgs).
Proof.
  unfold configureCommandlineSwitches, readFlagsConfig, append_flag,
    console_error, console_warn.
  repeat preserves_step.
Qed.

(** ** The switches *)

Lemma append_flag_trace (entry : string * json) (st : State) :
  append_flag entry st = (Ok tt, emit_all (switch_events entry) st).
Proof.
  destruct entry as [flag value]. unfold append_flag, switch_events. simpl.
  destruct (is_true_or_true_string value); [|reflexivity].
  destruct (String.eqb flag "disable-gpu"); reflexivity.
Qed.

Lemma emit_all_app (a b : list event) (st : State) :
  emit_all (a ++ b) st = emit_all b (emit_all a st).
Proof. apply fold_left_app. Qed.

Lemma forEach_append_flag_trace (entries : list (string * json)) (st : State) :
  forEach append_flag entries st
  = (Ok tt, emit_all (flat_map switch_events entries) st).
Proof.
  revert st. induction entries as [|entry entries IH]; intros st.
  - reflexivity.
  - simpl forEach. erewrite bind_run by apply append_flag_trace.
    rewrite IH. simpl flat_map. rewrite emit_all_app. reflexivity.
Qed.

Lemma readFlagsConfig_trace (w : World) (st : State) :
  trace (snd (readFlagsConfig w st))
  = trace st ++ flags_file_events w (files st).
Proof.
  unfold readFlagsConfig, try_catch, bind, fs_readFileSync, flags_file_events,
    fs_writeFileSync, parse.
  simpl.
  destruct (files st !! flagsConfigPath w) as [[raw | f]|] eqn:Hfile.
  - destruct (JSON_parse w (stripComments raw)) as [v|]; reflexivity.
  - assert (Hcode : bool_decide
              (error_code (SystemError (fault_code f)) = Some "ENOENT") = false).
    { destruct f; reflexivity. }
    rewrite Hcode. reflexivity.
  - simpl. destruct (fs_write_fault w (flagsConfigPath w)) as [e|]; simpl.
    + rewrite <- app_assoc. reflexivity.
    + rewrite <- app_assoc. reflexivity.
Qed.

Lemma js_flags_run (cliArgs : gmap string argval) (st : State) :
  (match getJSFlags cliArgs with
   | Some jsFlags =>
       if negb (String.eqb jsFlags "")
       then modify (emit (EvAppendSwitch "js-flags" (JStr jsFlags)))
       else ret tt
   | None => ret tt
   end) st = (Ok tt, emit_all (js_flags_events cliArgs) st).
Proof.
  unfold js_flags_events. destruct (getJSFlags cliArgs) as [jsFlags|];
    [|reflexivity].
  destruct (negb (String.eqb jsFlags "")); reflexivity.
Qed.

(** The calls of a load of the flags, one after the other. *)
Lemma configureCommandlineSwitches_trace (w : World)
    (cliArgs : gmap string argval) (st : State) :
  trace (snd (configureCommandlineSwitches w cliArgs st))
  = trace st ++ flags_file_events w (files st)
    ++ match own_entries (flagsOnDisk w (files st)) with
       | Ok entries => flat_map switch_events entries ++ js_flags_events cliArgs
       | Throw _ => []
       end.
Proof.
  pose proof (readFlagsConfig_trace w st) as Htrace.
  destruct (readFlagsConfig_run w st) as (st1 & Hrun & _).
  rewrite Hrun in Htrace. simpl in Htrace.
  unfold configureCommandlineSwitches.
  erewrite bind_run by exact Hrun.
  destruct (own_entries (flagsOnDisk w (files st))) as [entries | e].
  - erewrite bind_run by reflexivity.
    erewrite bind_run by apply forEach_append_flag_trace.
    erewrite bind_run by apply js_flags_run.
    simpl. rewrite !emit_all_trace, Htrace, <- !app_assoc. reflexivity.
  - erewrite bind_throw by reflexivity. simpl.
    rewrite Htrace, app_nil_r. reflexivity.
Qed.

Lemma appended_flags_of_entries (entries : list (string * json)) :
  omap appended_flag (flat_map switch_events entries) = List.map fst entries.
Proof.
  induction entries as [|[flag value] entries IH]; [reflexivity|].
  simpl flat_map. unfold switch_events at 1. simpl fst. simpl snd.
  rewrite omap_app, IH.
  destruct (is_true_or_true_string value); simpl;
    [destruct (String.eqb flag "disable-gpu")|]; reflexivity.
Qed.

Lemma switch_of_entry (entries : list (string * json)) (flag : string)
    (value : json) :
  In (flag, value) entries ->
  In (if is_true_or_true_string value then EvAppendArgument flag
      else EvAppendSwitch flag value)
     (flat_map switch_events entries).
Proof.
  intros Hin. apply in_flat_map. exists (flag, value). split; [exact Hin|].
  unfold switch_events. simpl. apply in_or_app. right. left. reflexivity.
Qed.

Lemma disable_of_entries (entries : list (string * json)) :
  In EvDisableHardwareAcceleration (flat_map switch_events entries)
  <-> exists value,
        In ("disable-gpu", value) entries
        /\ is_true_or_true_string value = true.
Proof.
  rewrite in_flat_map. split.
  - intros ([flag value] & Hin & Hev). unfold switch_events in Hev.
    simpl in Hev. apply in_app_or in Hev as [Hev | Hev].
    + destruct (is_true_or_true_string value) eqn:Hv; [|destruct Hev].
      destruct (String.eqb flag "disable-gpu") eqn:Hf; [|destruct Hev].
      apply String.eqb_eq in Hf. subst flag. exists value. auto.
    + destruct Hev as [Hev | []].
      destruct (is_true_or_true_string value); discriminate.
  - intros (value & Hin & Hv). exists ("disable-gpu", value).
    split; [exact Hin|]. unfold switch_events. simpl. rewrite Hv. simpl.
    left. reflexivity.
Qed.

(** X4. Every key of the flags configuration is appended to the command
    line once, in the order of the keys, as a plain argument when its value
    is true or the string true and as a switch with its value otherwise; the
    JS flags come last. *)
Theorem flags_are_appended_in_order (w : World)
    (cliArgs : gmap string argval) (st : State) (props : list (string * json)) :
  flagsOnDisk w (files st) = JObj props ->
  exists switches,
    trace (snd (configureCommandlineSwitches w cliArgs st))
      = trace st ++ flags_file_events w (files st) ++ switches
        ++ js_flags_events cliArgs
    /\ omap appended_flag switches = List.map fst props
    /\ forall flag value,
         In (flag, value) props ->
         In (if is_true_or_true_string value then EvAppendArgument flag
             else EvAppendSwitch flag value) switches.
Proof.
  intros Hflags. exists (flat_map switch_events props).
  rewrite configureCommandlineSwitches_trace, Hflags. simpl own_entries.
  split; [reflexivity|]. split; [apply appended_flags_of_entries|].
  intros flag value. apply switch_of_entry.
Qed.

(** A first run with max-memory=4096 on the command line. *)
Lemma flags_are_appended_in_order_witness :
  let w := exampleWorld {["max-memory" := AString "4096"]} "en-US" frenchOnly in
  let st := initialState ∅ in
  exists switches,
    trace (snd (configureCommandlineSwitches w (args w) st))
      = [EvReadFile (flagsConfigPath w); EvWriteFile (flagsConfigPath w)]
        ++ switches
        ++ [EvAppendSwitch "js-flags" (JStr "--max_old_space_size=4096")]
    /\ omap appended_flag switches = ["disable-color-correct-rendering"].
Proof.
  intros w st.
  destruct (flags_are_appended_in_order w (args w) st
              [("disable-color-correct-rendering", JBool true)] eq_refl)
    as (switches & Htrace & Hnames & _).
  exists switches. split; [exact Htrace | exact Hnames].
Defined.

(** X5. Hardware acceleration is disabled exactly when the flags
    configuration holds disable-gpu with the value true or the string
    true. *)
Theorem hardware_acceleration_disabled_iff (w : World)
    (cliArgs : gmap string argval) (st : State) (props : list (string * json)) :
  flagsOnDisk w (files st) = JObj props ->
  exists events,
    trace (snd (configureCommandlineSwitches w cliArgs st))
      = trace st ++ events
    /\ (In EvDisableHardwareAcceleration events
        <-> exists value,
              In ("disable-gpu", value) props
              /\ is_true_or_true_string value = true).
Proof.
  intros Hflags. eexists. split.
  - rewrite configureCommandlineSwitches_trace, Hflags. reflexivity.
  - simpl own_entries. cbv iota. rewrite <- disable_of_entries.
    unfold flags_file_events, js_flags_events. split.
    + intros [H | H]; [discriminate|].
      apply in_app_or in H as [H | H].
      * destruct (files st !! flagsConfigPath w); [destruct H|].
        destruct H as [H | []]. discriminate.
      * apply in_app_or in H as [H | H]; [exact H|].
        destruct (getJSFlags cliArgs) as [jsFlags|]; [|destruct H].
        destruct (negb (String.eqb jsFlags "")); [|destruct H].
        destruct H as [H | []]. discriminate.
    + intros H. right. apply in_or_app. right. apply in_or_app. left. exact H.
Qed.

(** Hardware acceleration with a flags file that asks for it. *)
Lemma hardware_acceleration_disabled_iff_witness :
  let w := exampleWorld ∅ "en-US" frenchOnly in
  let st := initialState {[flagsConfigPath w := File gpuFlagsJson]} in
  In EvDisableHardwareAcceleration
     (trace (snd (configureCommandlineSwitches w ∅ st))).
Proof.
  intros w st.
  destruct (hardware_acceleration_disabled_iff w ∅ st
              [("disable-gpu", JBool true)]) as (events & Ht & Hiff).
  - vm_compute. reflexivity.
  - rewrite Ht. apply in_or_app. right. apply Hiff.
    exists (JBool true). split; [left; reflexivity | reflexivity].
Defined.

Lemma is_query_not_load (e : event) : is_query e = true -> not_load e = true.
Proof. destruct e; simpl; auto. Qed.

Lemma is_nls_query_not_load (e : event) :
  is_nls_query e = true -> not_load e = true.
Proof. destruct e; simpl; auto. Qed.

Lemma not_load_is_load (e : event) : not_load e = true -> is_load e = false.
Proof. unfold not_load. apply negb_true_iff. Qed.

Lemma promise_of_run {A} (c : M A) (st : State) :
  promise_of c st = (Ok (fst (c st)), snd (c st)).
Proof. unfold promise_of. destruct (c st). reflexivity. Qed.

Lemma onUserDefinedLocale_ok (w : World)
    (userDefinedLocale : outcome (option string)) (st : State) :
  fst (onUserDefinedLocale w userDefinedLocale st) = Ok tt.
Proof.
  unfold onUserDefinedLocale. destruct userDefinedLocale as [locale | e];
    [|reflexivity].
  erewrite bind_run by reflexivity.
  destruct (truthy_str locale
            && negb (bool_decide (is_Some (nlsConfigurationPromise st))));
    [|reflexivity].
  rewrite (bind_run _ _ st _ _ (promise_of_run _ st)). reflexivity.
Qed.

(** The script up to the load of the flags: the user-defined locale is
    read and its callback has run, and nothing but queries happened. *)
Lemma main_prelude (w : World) (st : State) :
  exists st2,
    calls_only is_query st st2
    /\ main w st
       = bind (configureCommandlineSwitches w (args w))
              (fun _ => onAppReady w (_compute w (env st2))
                          (fst (getUserDefinedLocale w st))) st2.
Proof.
  pose proof (getUserDefinedLocale_calls w st) as H1.
  pose proof (onUserDefinedLocale_calls w (fst (getUserDefinedLocale w st))
                (snd (getUserDefinedLocale w st))) as H2.
  pose proof (onUserDefinedLocale_ok w (fst (getUserDefinedLocale w st))
                (snd (getUserDefinedLocale w st))) as Hok.
  destruct (onUserDefinedLocale w (fst (getUserDefinedLocale w st))
              (snd (getUserDefinedLocale w st))) as [r st2] eqn:Hcb.
  simpl in H2, Hok. subst r.
  exists st2. split; [etransitivity; eassumption|].
  unfold main.
  rewrite (bind_run _ _ st _ _ (promise_of_run _ st)).
  erewrite bind_run by exact Hcb.
  erewrite bind_run by reflexivity. reflexivity.
Qed.

(** X6. On a first run whose write of the template fails, the failure is
    logged and nothing else happens to it: the disk is as before and the
    default configuration is in force. *)
Theorem flags_write_failure_is_logged (w : World)
    (cliArgs : gmap string argval) (st : State) (e : js_error) :
  files st !! flagsConfigPath w = None ->
  fs_write_fault w (flagsConfigPath w) = Some e ->
  let run := configureCommandlineSwitches w cliArgs st in
  fst run = Ok defaultFlagsConfig
  /\ files (snd run) = files st
  /\ console (snd run) = console st ++ [LogError e]
  /\ trace (snd run)
       = trace st
         ++ [EvReadFile (flagsConfigPath w); EvWriteFile (flagsConfigPath w);
             EvAppendArgument "disable-color-correct-rendering"]
         ++ js_flags_events cliArgs.
Proof.
  intros Hfile Hfault run.
  pose proof (configureCommandlineSwitches_trace w cliArgs st) as Htrace.
  destruct (configureCommandlineSwitches_run w cliArgs st)
    as (st1 & Hrun & Hfiles & Hlog & _).
  fold run in Hrun, Htrace. rewrite Hrun in *. simpl fst. simpl snd in *.
  unfold flagsOnDisk, diskAfterLoad, loadLog, flags_file_events in *.
  rewrite Hfile in *. rewrite Hfault in *.
  repeat split; assumption.
Qed.

(** A first run on a read-only file system. *)
Lemma flags_write_failure_is_logged_witness :
  let run := configureCommandlineSwitches readOnlyWorld ∅ (initialState ∅) in
  fst run = Ok defaultFlagsConfig
  /\ files (snd run) = ∅
  /\ console (snd run) = [LogError (SystemError "EROFS")].
Proof.
  intros run.
  destruct (flags_write_failure_is_logged readOnlyWorld ∅ (initialState ∅)
              (SystemError "EROFS")) as (H1 & H2 & H3 & _);
    [vm_compute; reflexivity | reflexivity |].
  auto.
Defined.

(** X7. The load of the flags throws exactly when the flags file parses to
    null; the script then ends with that error before the ready handler is
    installed: no switch is appended and the bundle is never loaded. *)
Theorem null_flags_config_stops_script (w : World) (st : State) :
  (forall cliArgs e,
     fst (configureCommandlineSwitches w cliArgs st) = Throw e
     <-> flagsOnDisk w (files st) = JNull /\ e = TypeError)
  /\ (flagsOnDisk w (files st) = JNull ->
      fst (main w st) = Throw TypeError
      /\ exists events,
           trace (snd (main w st)) = trace st ++ events
           /\ forallb is_query events = true).
Proof.
  split.
  - intros cliArgs e.
    destruct (configureCommandlineSwitches_run w cliArgs st) as (st1 & -> & _).
    simpl fst.
    destruct (flagsOnDisk w (files st)) as [ | b | n | s | items | props];
      simpl; split; try discriminate; try (intros [H _]; discriminate).
    + intros H. injection H as <-. auto.
    + intros [_ ->]. reflexivity.
  - intros Hnull.
    destruct (main_prelude w st) as (st2 & (Hfiles & _ & _ & Hpre) & ->).
    pose proof (configureCommandlineSwitches_trace w (args w) st2) as Htrace.
    destruct (configureCommandlineSwitches_run w (args w) st2)
      as (st3 & Hrun & _).
    rewrite Hfiles, Hnull in Hrun, Htrace. simpl in Hrun.
    rewrite Hrun in Htrace. simpl in Htrace.
    erewrite bind_throw by exact Hrun. split; [reflexivity|].
    destruct Hpre as (events & Ht & Hall).
    exists (events ++ flags_file_events w (files st)).
    simpl snd. rewrite Htrace, Ht, app_nil_r, <- app_assoc.
    split; [reflexivity|]. rewrite forallb_app, Hall.
    unfold flags_file_events.
    destruct (files st !! flagsConfigPath w) eqn:Hfile; [reflexivity|].
    unfold flagsOnDisk in Hnull. rewrite Hfile in Hnull. discriminate.
Qed.

(** A flags file that holds null. *)
Lemma null_flags_config_stops_script_witness :
  let w := exampleWorld ∅ "en-US" frenchOnly in
  let st := initialState {[flagsConfigPath w := File "null"]} in
  fst (main w st) = Throw TypeError
  /\ exists events,
       trace (snd (main w st)) = trace st ++ events
       /\ forallb is_query events = true.
Proof.
  intros w st.
  destruct (null_flags_config_stops_script w st) as [_ H].
  apply H. vm_compute. reflexivity.
Defined.

(** ** The order of the calls in a run *)

(** The ready handler calls the platform and the provider, and loads the
    bundle last if at all. *)
Lemma onReady_loads_last (w : World) (nodeCachedDataDir : option string)
    (userDefinedLocale : outcome (option string)) (st : State) :
  loads_last st (snd (onReady w nodeCachedDataDir userDefinedLocale st)).
Proof.
  rewrite onReady_run.
  destruct userDefinedLocale as [locale | e].
  - pose proof (resolveNlsConfiguration_calls w locale
                  (emit (EvMkdirp nodeCachedDataDir) st))
      as (_ & _ & _ & events & Ht & Hall).
    destruct (resolveNlsConfiguration w locale _) as [[cfg | e] st1];
      simpl in Ht.
    + destruct (startup_run w
                  (match bootstrap_mkdirp w nodeCachedDataDir with
                   | Some _ => None
                   | None => nodeCachedDataDir
                   end) cfg st1) as (st2 & Hrun & _ & _ & _ & _ & _ & Ht2).
      rewrite Hrun. simpl snd. exists (EvMkdirp nodeCachedDataDir :: events).
      split.
      * simpl. rewrite forallb_forall in *. intros e He.
        apply is_nls_query_not_load, Hall, He.
      * right. rewrite Ht2, Ht. simpl. rewrite <- !app_assoc. reflexivity.
    + exists (EvMkdirp nodeCachedDataDir :: events). split.
      * simpl. rewrite forallb_forall in *. intros e' He.
        apply is_nls_query_not_load, Hall, He.
      * left. simpl. rewrite Ht. simpl. rewrite <- !app_assoc. reflexivity.
  - exists [EvMkdirp nodeCachedDataDir]. split; [reflexivity|].
    left. reflexivity.
Qed.

Lemma grows_loads_last (st1 st2 st3 : State) :
  grows not_load st1 st2 -> loads_last st2 st3 -> loads_last st1 st3.
Proof.
  intros (e1 & H1 & A1) (e2 & A2 & H2). exists (e1 ++ e2).
  split; [rewrite forallb_app, A1, A2; reflexivity|].
  destruct H2 as [H2 | H2]; [left | right]; rewrite H2, H1, <- !app_assoc;
    reflexivity.
Qed.

Lemma grows_is_loads_last (st1 st2 : State) :
  grows not_load st1 st2 -> loads_last st1 st2.
Proof. intros (e1 & H1 & A1). exists e1. auto. Qed.

Lemma onAppReady_loads_last (w : World) (nodeCachedDataDir : option string)
    (userDefinedLocale : outcome (option string)) (st : State) :
  loads_last st (snd (onAppReady w nodeCachedDataDir userDefinedLocale st)).
Proof.
  unfold onAppReady.
  destruct (truthy_arg (args w !! "trace")).
  - erewrite bind_run by reflexivity.
    eapply grows_loads_last; [|apply onReady_loads_last].
    apply grows_emit. reflexivity.
  - erewrite bind_run by reflexivity. apply onReady_loads_last.
Qed.

(** X8. In a run of the script the main bundle is loaded at most once, and
    as the last call: the files are read, the switches appended, the cache
    directory created and the provider asked before it. *)
Theorem bundle_load_comes_last (w : World) (st : State) :
  exists events,
    forallb not_load events = true
    /\ (trace (snd (main w st)) = trace st ++ events
        \/ trace (snd (main w st)) = trace st ++ events ++ [main_bundle]).
Proof.
  change (loads_last st (snd (main w st))).
  destruct (main_prelude w st) as (st2 & (_ & _ & _ & Hpre) & ->).
  apply (grows_weaken _ not_load _ _ is_query_not_load) in Hpre.
  eapply grows_loads_last; [exact Hpre|].
  pose proof (configureCommandlineSwitches_grows w (args w) st2) as Hcfg.
  unfold bind.
  destruct (configureCommandlineSwitches w (args w) st2) as [[cfg | e] st3];
    simpl in Hcfg.
  - eapply grows_loads_last; [exact Hcfg | apply onAppReady_loads_last].
  - apply grows_is_loads_last, Hcfg.
Qed.

(** X9. When the parsed command line holds a list for locale, which is
    what a repeated option becomes, lower-casing it throws, the promise of
    the user-defined locale is rejected, and the ready handler logs the
    error and does not load the bundle. *)
Theorem repeated_locale_option_stops_startup (w : World) (st : State)
    (locales : list string) :
  args w !! "locale" = Some (AList locales) ->
  getUserDefinedLocale w st = (Throw TypeError, st)
  /\ bundle_loads (snd (main w st)) = bundle_loads st
  /\ (flagsOnDisk w (files st) <> JNull ->
      fst (main w st) = Ok tt
      /\ console (snd (main w st))
           = console st ++ loadLog w (files st) ++ [LogError TypeError]).
Proof.
  intros Hcli.
  assert (Hudl : getUserDefinedLocale w st = (Throw TypeError, st)).
  { unfold getUserDefinedLocale. rewrite Hcli. reflexivity. }
  split; [exact Hudl|].
  assert (Hmain : main w st
            = bind (configureCommandlineSwitches w (args w))
                   (fun _ => onAppReady w (_compute w (env st))
                               (Throw TypeError)) st).
  { unfold main.
    rewrite (bind_run _ _ st _ _ (promise_of_run _ st)).
    rewrite Hudl. simpl fst. simpl snd.
    erewrite bind_run by reflexivity.
    erewrite bind_run by reflexivity. reflexivity. }
  rewrite Hmain.
  pose proof (configureCommandlineSwitches_grows w (args w) st) as Hgrows.
  destruct (configureCommandlineSwitches_run w (args w) st)
    as (st1 & Hrun & _ & Hlog & _).
  rewrite Hrun in Hgrows. simpl in Hgrows.
  assert (Hloads1 : bundle_loads st1 = bundle_loads st).
  { apply (grows_bundle_loads not_load); [apply not_load_is_load | exact Hgrows]. }
  assert (Hready : forall st0,
            onAppReady w (_compute w (env st)) (Throw TypeError) st0
            = (Ok tt, log (LogError TypeError)
                        (emit (EvMkdirp (_compute w (env st)))
                           (if truthy_arg (args w !! "trace")
                            then emit (EvStartRecording
                                   (if truthy_arg (args w !! "trace-category-filter")
                                    then default (AString "*")
                                           (args w !! "trace-category-filter")
                                    else AString "*")
                                   (if truthy_arg (args w !! "trace-options")
                                    then default (AString "")
                                           (args w !! "trace-options")
                                    else AString "record-until-full,enable-sampling"))
                                   st0
                            else st0)))).
  { intros st0. unfold onAppReady.
    destruct (truthy_arg (args w !! "trace"));
      erewrite bind_run by reflexivity; rewrite onReady_run; reflexivity. }
  destruct (own_entries (flagsOnDisk w (files st))) as [entries | e] eqn:Hentries.
  - erewrite bind_run by exact Hrun. rewrite Hready. simpl fst. simpl snd.
    split.
    + rewrite bundle_loads_log, bundle_loads_emit. simpl.
      destruct (truthy_arg (args w !! "trace"));
        rewrite ?bundle_loads_emit; simpl; lia.
    + intros _. split; [reflexivity|].
      simpl. destruct (truthy_arg (args w !! "trace")); simpl;
        rewrite Hlog, <- app_assoc; reflexivity.
  - erewrite bind_throw by exact Hrun. simpl snd. split; [exact Hloads1|].
    intros Hnot. destruct (flagsOnDisk w (files st)); try discriminate.
    contradiction.
Qed.

(** The locale given twice. *)
Lemma repeated_locale_option_stops_startup_witness :
  let w := exampleWorld {["locale" := AList ["fr"; "de"]]} "en-US" frenchOnly in
  let run := main w (initialState ∅) in
  fst run = Ok tt
  /\ bundle_loads (snd run) = 0
  /\ console (snd run) = [LogError TypeError].
Proof.
  intros w run.
  destruct (repeated_locale_option_stops_startup w (initialState ∅)
              ["fr"; "de"] eq_refl) as (_ & Hloads & Hrest).
  destruct Hrest as [Hok Hconsole]; [vm_compute; discriminate|].
  split; [exact Hok|]. split; [exact Hloads | exact Hconsole].
Defined.

(** ** More on the locale *)

(** X10. Resolving the NLS configuration asks the platform for its locale
    and the provider for configurations and does nothing else: files,
    environment and console stay as they are, and afterwards the promise
    is in place. *)
Theorem resolveNlsConfiguration_footprint (w : World)
    (locale : option string) (st : State) :
  let st' := snd (resolveNlsConfiguration w locale st) in
  files st' = files st /\ env st' = env st /\ console st' = console st
  /\ (exists events,
        trace st' = trace st ++ events /\ forallb is_nls_query events = true
        /\ List.length events <= 3)
  /\ is_Some (nlsConfigurationPromise st').
Proof.
  intros st'.
  pose proof (resolveNlsConfiguration_calls w locale st) as (H1 & H2 & H3 & _).
  fold st' in H1, H2, H3.
  split; [exact H1|]. split; [exact H2|]. split; [exact H3|].
  destruct (resolveNlsConfiguration_sets_promise w locale st) as (p & Hp & _).
  fold st' in Hp. split; [|rewrite Hp; eauto].
  assert (Hafter : forall p0 st0,
            exists events,
              trace (snd (after_promise w p0 st0)) = trace st0 ++ events
              /\ forallb is_nls_query events = true
              /\ List.length events <= 2).
  { intros p0 st0. unfold after_promise.
    destruct p0 as [[c|]|e];
      try (exists []; rewrite app_nil_r; simpl; auto; fail).
    exists (step3_events w). cbn [snd]. rewrite emit_all_trace.
    split; [reflexivity|]. unfold step3_events.
    destruct (String.eqb (app_getLocale w) ""); simpl; auto. }
  unfold st'.
  destruct (nlsConfigurationPromise st) as [p0|] eqn:Hp0.
  - rewrite (resolveNlsConfiguration_memoized w locale p0 st Hp0).
    destruct (Hafter p0 st) as (events & Ht & Hall & Hlen).
    exists events. repeat split; [exact Ht | exact Hall | lia].
  - rewrite (resolveNlsConfiguration_fresh w locale st Hp0).
    destruct (truthy_str locale).
    + match goal with
      | |- context [after_promise w ?p1 ?s1] =>
          destruct (Hafter p1 s1) as (events & Ht & Hall & Hlen)
      end.
      exists (EvGetNLS (default "" locale) :: events).
      rewrite Ht. simpl. rewrite <- app_assoc. repeat split; [exact Hall | lia].
    + match goal with
      | |- context [after_promise w ?p1 ?s1] =>
          destruct (Hafter p1 s1) as (events & Ht & Hall & Hlen)
      end.
      exists events. rewrite Ht. repeat split; [exact Hall | lia].
Qed.

Lemma lower_char_idempotent (c : ascii) :
  lower_char (lower_char c) = lower_char c.
Proof.
  destruct c as [[] [] [] [] [] [] [] []]; vm_compute; reflexivity.
Qed.

Lemma toLowerCase_idempotent (s : string) :
  toLowerCase (toLowerCase s) = toLowerCase s.
Proof.
  induction s as [|c s IH]; [reflexivity|].
  simpl. rewrite lower_char_idempotent, IH. reflexivity.
Qed.

(** X11. Whatever its origin, the command line or the persisted file, a
    user-defined locale is handed on in lower case and is never the empty
    string. *)
Theorem user_defined_locale_is_lower_case (w : World) (st st' : State)
    (locale : string) :
  getUserDefinedLocale w st = (Ok (Some locale), st') ->
  toLowerCase locale = locale /\ locale <> "".
Proof.
  intros Hrun.
  destruct (truthy_arg (args w !! "locale")) eqn:Hcli.
  - unfold getUserDefinedLocale in Hrun. rewrite Hcli in Hrun.
    destruct (args w !! "locale") as [[s | b | l]|]; try discriminate.
    injection Hrun as <- _. split; [apply toLowerCase_idempotent|].
    simpl in Hcli. apply negb_true_iff, String.eqb_neq in Hcli.
    apply toLowerCase_nonempty, Hcli.
  - rewrite (getUserDefinedLocale_file w st Hcli) in Hrun.
    injection Hrun as Hrun _. unfold persistedLocale in Hrun.
    destruct (files st !! localeConfigPath w) as [[raw | f]|]; try discriminate.
    destruct (JSON_parse w (stripComments raw)) as [[ | | | | | props]|];
      try discriminate.
    destruct (get_prop "locale" props) as [[ | | | s | | ]|]; try discriminate.
    destruct (negb (String.eqb s "")) eqn:Hs; [|discriminate].
    injection Hrun as <-. split; [apply toLowerCase_idempotent|].
    apply negb_true_iff, String.eqb_neq in Hs.
    apply toLowerCase_nonempty, Hs.
Qed.

(** A persisted locale in capitals. *)
Lemma user_defined_locale_is_lower_case_witness :
  let w := exampleWorld ∅ "en-US" frenchOnly in
  let st := initialState {[localeConfigPath w := File germanLocaleJson]} in
  fst (getUserDefinedLocale w st) = Ok (Some "de")
  /\ toLowerCase "de" = "de".
Proof.
  intros w st.
  assert (Hrun : getUserDefinedLocale w st
                 = (Ok (Some "de"), snd (getUserDefinedLocale w st)))
    by (vm_compute; reflexivity).
  split; [rewrite Hrun; reflexivity|].
  apply (user_defined_locale_is_lower_case w st _ "de" Hrun).
Defined.

(** ** The listeners for files and URLs *)

Lemma dispatch_all_app (a b : list app_event) (l : Listeners) :
  dispatch_all (a ++ b) l = dispatch_all b (dispatch_all a l).
Proof. apply fold_left_app. Qed.

(** X12. Every path of an open-file event is remembered, in the order of
    arrival and behind what was remembered before, whatever else happens. *)
Theorem macOpenFiles_remembers_every_path (events : list app_event)
    (l : Listeners) :
  macOpenFiles (dispatch_all events l) = macOpenFiles l ++ opened_files events.
Proof.
  revert l. induction events as [|e events IH]; intros l; simpl.
  - rewrite app_nil_r. reflexivity.
  - unfold dispatch_all in IH. rewrite IH.
    destruct e; simpl; rewrite <- ?app_assoc; reflexivity.
Qed.

(** Without a registration nothing is collected. *)
Lemma no_listener_no_urls (events : list app_event) (l : Listeners) :
  forallb (fun e => negb (is_launch e)) events = true ->
  onOpenUrl_listeners l = 0 ->
  openUrls (dispatch_all events l) = openUrls l
  /\ defaultPrevented (dispatch_all events l) = defaultPrevented l
  /\ onOpenUrl_listeners (dispatch_all events l) = 0.
Proof.
  revert l. induction events as [|e events IH]; intros l Hno Hl.
  - simpl. auto.
  - simpl in Hno. apply andb_true_iff in Hno as [He Hno].
    change (dispatch_all (e :: events) l)
      with (dispatch_all events (dispatch l e)).
    destruct e; try discriminate;
      (match goal with
       | |- context [dispatch_all events ?l'] =>
           destruct (IH l' Hno) as (H1 & H2 & H3)
       end;
       [simpl; rewrite ?Hl; reflexivity|];
       rewrite H1, H2, H3; simpl; rewrite ?Hl; simpl; rewrite ?app_nil_r; auto).
Qed.

(** With one registration every URL is collected once. *)
Lemma one_listener_all_urls (events : list app_event) (l : Listeners) :
  forallb (fun e => negb (is_launch e) && negb (is_getOpenUrls e)) events = true ->
  onOpenUrl_listeners l = 1 ->
  openUrls (dispatch_all events l) = openUrls l ++ opened_urls events
  /\ defaultPrevented (dispatch_all events l)
       = defaultPrevented l ++ opened_urls events
  /\ onOpenUrl_listeners (dispatch_all events l) = 1.
Proof.
  revert l. induction events as [|e events IH]; intros l Hno Hl.
  - simpl. rewrite !app_nil_r. auto.
  - simpl in Hno. apply andb_true_iff in Hno as [He Hno].
    change (dispatch_all (e :: events) l)
      with (dispatch_all events (dispatch l e)).
    destruct e; try discriminate;
      (match goal with
       | |- context [dispatch_all events ?l'] =>
           destruct (IH l' Hno) as (H1 & H2 & H3)
       end;
       [simpl; rewrite ?Hl; reflexivity|];
       rewrite H1, H2, H3; simpl; rewrite ?Hl; simpl;
       rewrite <- ?app_assoc; auto).
Qed.

(** X13. A URL that arrives before will-finish-launching is not collected,
    and its default handling is not prevented. *)
Theorem urls_before_launch_are_not_collected (events : list app_event) :
  forallb (fun e => negb (is_launch e)) events = true ->
  openUrls (dispatch_all events registerListeners) = []
  /\ defaultPrevented (dispatch_all events registerListeners) = [].
Proof.
  intros Hno.
  destruct (no_listener_no_urls events registerListeners Hno eq_refl)
    as (H1 & H2 & _).
  auto.
Qed.

(** A URL that arrives first of all. *)
Lemma urls_before_launch_are_not_collected_witness :
  openUrls (dispatch_all [OpenUrl "vscode://a"; OpenFile "/tmp/x"; GetOpenUrls]
              registerListeners) = [].
Proof.
  apply (urls_before_launch_are_not_collected
           [OpenUrl "vscode://a"; OpenFile "/tmp/x"; GetOpenUrls]).
  reflexivity.
Defined.

(** X14. With one will-finish-launching, getOpenUrls returns the URLs that
    arrived between it and the call, in order, each with its default
    prevented; URLs that arrive after the call are no longer collected. *)
Theorem urls_are_collected_until_getOpenUrls
    (before between after : list app_event) :
  forallb (fun e => negb (is_launch e)) before = true ->
  forallb (fun e => negb (is_launch e) && negb (is_getOpenUrls e)) between
    = true ->
  forallb (fun e => negb (is_launch e)) after = true ->
  let l := dispatch_all (before ++ [WillFinishLaunching] ++ between)
             registerListeners in
  fst (getOpenUrls l) = opened_urls between
  /\ defaultPrevented l = opened_urls between
  /\ openUrls (dispatch_all after (snd (getOpenUrls l))) = opened_urls between.
Proof.
  intros Hbefore Hbetween Hafter l.
  destruct (no_listener_no_urls before registerListeners Hbefore eq_refl)
    as (B1 & B2 & B3).
  assert (Hl : openUrls l = opened_urls between
               /\ defaultPrevented l = opened_urls between /\ onOpenUrl_listeners l = 1).
  { unfold l. rewrite !dispatch_all_app.
    destruct (one_listener_all_urls between
                (dispatch_all [WillFinishLaunching]
                   (dispatch_all before registerListeners)) Hbetween)
      as (H1 & H2 & H3).
    - simpl. rewrite B3. reflexivity.
    - rewrite H1, H2, H3. simpl. rewrite B1, B2. auto. }
  destruct Hl as (L1 & L2 & L3).
  split; [exact L1|]. split; [exact L2|].
  destruct (no_listener_no_urls after (snd (getOpenUrls l)) Hafter) as (A1 & _).
  - simpl. rewrite L3. reflexivity.
  - rewrite A1. exact L1.
Qed.

(** One URL too early, two in time, one too late. *)
Lemma urls_are_collected_until_getOpenUrls_witness :
  let l := dispatch_all ([OpenUrl "vscode://early"] ++ [WillFinishLaunching]
                           ++ [OpenUrl "vscode://a"; OpenFile "/x";
                               OpenUrl "vscode://b"]) registerListeners in
  fst (getOpenUrls l) = ["vscode://a"; "vscode://b"]
  /\ openUrls (dispatch_all [OpenUrl "vscode://late"] (snd (getOpenUrls l)))
     = ["vscode://a"; "vscode://b"].
Proof.
  intros l.
  destruct (urls_are_collected_until_getOpenUrls
              [OpenUrl "vscode://early"]
              [OpenUrl "vscode://a"; OpenFile "/x"; OpenUrl "vscode://b"]
              [OpenUrl "vscode://late"]) as (H1 & _ & H3);
    [reflexivity | reflexivity | reflexivity |].
  split; [exact H1 | exact H3].
Defined.

(** ** More on the comment stripper *)

(** What the matcher hands to its continuation is a suffix of the text. *)
Lemma m_sound (r : regex) (s : string) (k : cont) (x : string) :
  m r s k = Some x -> exists mid s', s = mid +:+ s' /\ k s' = Some x.
Proof.
  revert s k x.
  induction r as [ | p | | r1 IH1 r2 IH2 | r1 IH1 r2 IH2 | g r IH];
    intros s k x H; simpl in H.
  - exists "", s. split; [reflexivity | exact H].
  - destruct s as [|c s']; [discriminate|].
    destruct (p c); [|discriminate].
    exists (str1 c), s'. split; [reflexivity | exact H].
  - destruct s; [|discriminate]. exists "", "". split; [reflexivity | exact H].
  - apply IH1 in H as (mid1 & s1 & -> & H).
    apply IH2 in H as (mid2 & s2 & -> & H).
    exists (mid1 +:+ mid2), s2. split; [rewrite append_assoc; reflexivity | exact H].
  - destruct (m r1 s k) as [y|] eqn:E.
    + injection H as ->. apply IH1 in E. exact E.
    + apply IH2 in H. exact H.
  - revert H. generalize (String.length s). intros fuel. revert s x.
    induction fuel as [|fuel IHf]; intros s x H; simpl in H.
    + exists "", s. split; [reflexivity | exact H].
    + assert (Hagain : forall y,
                m r s (fun s' => if String.length s' <? String.length s
                                 then star_loop (m r) g k fuel s' else None)
                = Some y ->
                exists mid s', s = mid +:+ s' /\ k s' = Some y).
      { intros y Hy. apply IH in Hy as (mid1 & s1 & -> & Hy).
        destruct (String.length s1 <? String.length (mid1 +:+ s1));
          [|discriminate].
        apply IHf in Hy as (mid2 & s2 & -> & Hy).
        exists (mid1 +:+ mid2), s2.
        split; [rewrite append_assoc; reflexivity | exact Hy]. }
      destruct g.
      * destruct (m r s _) as [y|] eqn:E.
        -- injection H as ->. apply Hagain. reflexivity.
        -- exists "", s. split; [reflexivity | exact H].
      * destruct (k s) as [y|] eqn:E.
        -- injection H as ->. exists "", s. split; [reflexivity | exact E].
        -- apply Hagain. exact H.
Qed.

(** The matched text and the remaining text make up the text. *)
Lemma exec_groups_sound (groups : list regex) (i j : nat)
    (s matched rest : string) :
  exec_groups i groups s = Some (j, matched, rest) -> s = matched +:+ rest.
Proof.
  revert i. induction groups as [|r groups IH]; intros i H; simpl in H.
  - discriminate.
  - destruct (m r s Some) as [rest'|] eqn:E.
    + injection H as <- <- <-.
      apply m_sound in E as (mid & s' & -> & Hs'). injection Hs' as ->.
      rewrite consumed_prefix. reflexivity.
    + apply IH in H. exact H.
Qed.

Lemma append_length_le (a b : string) :
  String.length (a +:+ b) <= String.length b -> a = "".
Proof.
  rewrite length_append. intros H. apply length_zero. lia.
Qed.

Lemma replacer_empty (i : nat) : replacer i "" = "".
Proof.
  unfold replacer. simpl String.eqb. simpl negb. rewrite !andb_false_r.
  reflexivity.
Qed.

(** The replacement is never longer than the match. *)
Lemma replacer_length (i : nat) (matched : string) :
  String.length (replacer i matched) <= String.length matched.
Proof.
  unfold replacer.
  destruct ((i =? 3) && negb (String.eqb matched "")); [simpl; lia|].
  destruct ((i =? 4) && negb (String.eqb matched "")); [|lia].
  destruct (2 <? String.length matched) eqn:E; [|simpl; lia].
  apply Nat.ltb_lt in E.
  destruct (bool_decide (char_at (String.length matched - 1) matched = Some LF));
    [|simpl; lia].
  simpl andb. cbv iota.
  destruct (bool_decide (char_at (String.length matched - 2) matched = Some CR));
    simpl; lia.
Qed.

(** One step of the scan, with the text split at the match. *)
Lemma stripComments_cases (s : string) :
  (exists i matched rest,
     exec_groups 1 regexp s = Some (i, matched, rest)
     /\ s = matched +:+ rest
     /\ String.length rest < String.length s
     /\ stripComments s = replacer i matched +:+ stripComments rest)
  \/ (exists c s', s = String c s'
        /\ stripComments s = String c (stripComments s'))
  \/ (s = "" /\ stripComments s = "").
Proof.
  rewrite stripComments_step.
  destruct (exec_groups 1 regexp s) as [[[i matched] rest]|] eqn:E.
  - pose proof (exec_groups_sound _ _ _ _ _ _ E) as Hs.
    destruct (String.length rest <? String.length s) eqn:Hlen.
    + apply Nat.ltb_lt in Hlen. left. exists i, matched, rest. auto.
    + apply Nat.ltb_ge in Hlen.
      assert (matched = "") as ->.
      { apply (append_length_le matched rest). rewrite <- Hs. exact Hlen. }
      rewrite replacer_empty, append_empty_l.
      destruct s as [|c s']; [right; right; auto|].
      right; left. exists c, s'. auto.
  - destruct s as [|c s']; [right; right; auto|].
    right; left. exists c, s'. auto.
Qed.

(** X19. Stripping never makes a text longer. *)
Theorem stripComments_never_longer (content : string) :
  String.length (stripComments content) <= String.length content.
Proof.
  remember (String.length content) as n eqn:Hn.
  revert content Hn. induction n as [n IH] using lt_wf_ind. intros s Hn.
  destruct (stripComments_cases s)
    as [(i & matched & rest & _ & Hs & Hlen & ->)
       | [(c & s' & -> & ->) | [-> ->]]].
  - rewrite length_append.
    pose proof (replacer_length i matched) as Hrep.
    pose proof (IH (String.length rest) ltac:(lia) rest eq_refl) as Hrest.
    rewrite Hs, length_append in Hn. lia.
  - simpl in Hn. simpl.
    pose proof (IH (String.length s') ltac:(lia) s' eq_refl). lia.
  - simpl. lia.
Qed.

(** A group that matched at a character other than a slash is one of the
    two string groups. *)
Lemma exec_groups_no_slash (c : ascii) (s matched rest : string) (i : nat) :
  no_slash c = true ->
  exec_groups 1 regexp (String c s) = Some (i, matched, rest) ->
  i = 1 \/ i = 2.
Proof.
  intros Hc H. unfold regexp, exec_groups in H.
  destruct (m (quoted dquote) (String c s) Some);
    [injection H as <- _ _; auto|].
  destruct (m (quoted squote) (String c s) Some);
    [injection H as <- _ _; auto|].
  unfold block_comment, line_comment, at_least_2 in H. simpl seqs in H.
  rewrite !m_seq, !m_chr in H.
  unfold no_slash in Hc. apply negb_true_iff in Hc.
  rewrite (Ascii.eqb_sym slash c), Hc in H. discriminate.
Qed.

(** X18. A text without a slash holds no comment and is returned as it
    is, quotes without a partner included. *)
Theorem stripComments_without_slash (content : string) :
  all_chars no_slash content = true -> stripComments content = content.
Proof.
  remember (String.length content) as n eqn:Hn.
  revert content Hn. induction n as [n IH] using lt_wf_ind. intros s Hn Hall.
  destruct (stripComments_cases s)
    as [(i & matched & rest & Hexec & Hs & Hlen & ->)
       | [(c & s' & -> & ->) | [-> ->]]].
  - rewrite Hs in Hall. rewrite all_chars_append in Hall.
    apply andb_true_iff in Hall as [Hm Hr].
    rewrite (IH (String.length rest) ltac:(lia) rest eq_refl Hr).
    destruct s as [|c s']; [simpl in Hlen; lia|].
    assert (Hc : no_slash c = true).
    { destruct matched as [|c' matched'].
      - rewrite append_empty_l in Hs. subst rest. simpl in Hlen. lia.
      - rewrite append_String in Hs. injection Hs as -> _.
        simpl in Hm. apply andb_true_iff in Hm as [Hm _]. exact Hm. }
    destruct (exec_groups_no_slash c s' matched rest i Hc Hexec) as [-> | ->];
      rewrite Hs; reflexivity.
  - simpl in Hall. apply andb_true_iff in Hall as [_ Hall]. simpl in Hn.
    rewrite (IH (String.length s') ltac:(lia) s' eq_refl Hall). reflexivity.
  - reflexivity.
Qed.





(** X17. A string literal in double or single quotes is kept character by
    character, whatever comment syntax it holds, and the scan goes on behind
    its closing quote. *)
Theorem stripComments_string_literals (q : ascii) (body rest : string) :
  is_quote q = true ->
  string_body q body = true ->
  stripComments (String q (body +:+ String q rest))
  = String q (body +:+ String q (stripComments rest)).
Proof.
  intros Hq Hbody. apply orb_true_iff in Hq as [Hq | Hq];
    apply Ascii.eqb_eq in Hq; subst q.
  - apply stripComments_double_quoted, Hbody.
  - apply stripComments_single_quoted, Hbody.
Qed.

(** A string that holds comment syntax. *)
Lemma stripComments_string_literals_witness :
  stripComments (dq +:+ "// a /* b */" +:+ dq +:+ "// c")
  = dq +:+ "// a /* b */" +:+ dq +:+ stripComments "// c".
Proof.
  apply (stripComments_string_literals dquote "// a /* b */" "// c");
    reflexivity.
Defined.

(** A locale file without comments. *)
Lemma stripComments_without_slash_witness :
  stripComments plainLocaleJson = plainLocaleJson.
Proof.
  apply stripComments_without_slash. reflexivity.
Defined.



